(** * shavar.sources: refresh-gated chunk sources

    A shallow embedding of [shavar/sources.py]: the [Source] base class with
    its refresh protocol, and the two backends [FileSource] and
    [S3FileSource].  Python integers are [Z], the float readings of
    [time.time()] and [st_mtime] are rationals truncated by [py_int], dicts
    are [gmap], sets are [gset], and an exception is an [outcome] that
    carries the object state reached when it was raised. *)

From Stdlib Require Import ZArith QArith Qround String Ascii List Lia.
From stdpp Require Import base decidable option list gmap sets strings.

Local Open Scope string_scope.
Local Open Scope Z_scope.

(** ** Python string primitives used by [posixpath] *)

Module PyStr.

Definition slash : ascii := "/"%char.

(** The double quote, for building messages. *)
Definition dquote : string := String (ascii_of_nat 34) EmptyString.

(** [s.split(sep)] for a one-character separator: never the empty list. *)
Fixpoint split (sep : ascii) (s : string) : list string :=
  match s with
  | EmptyString => [EmptyString]
  | String c rest =>
      if Ascii.eqb c sep then EmptyString :: split sep rest
      else match split sep rest with
           | hd :: tl => String c hd :: tl
           | [] => [String c EmptyString]
           end
  end.

(** [sep.join(l)] *)
Definition join (sep : string) (l : list string) : string :=
  String.concat sep l.

Definition startswith (p s : string) : bool := String.prefix p s.

Definition endswith (p s : string) : bool :=
  String.prefix (String.rev p) (String.rev s).

(** [s.rfind(c)]: the last index of [c] in [s], or [-1]. *)
Fixpoint rfind_from (c : ascii) (s : string) (i : Z) (found : Z) : Z :=
  match s with
  | EmptyString => found
  | String d rest =>
      rfind_from c rest (i + 1) (if Ascii.eqb d c then i else found)
  end.

Definition rfind (c : ascii) (s : string) : Z := rfind_from c s 0 (-1).

(** The slices [s[:i]] and [s[i:]] for [0 <= i]. *)
Definition slice_to (i : Z) (s : string) : string :=
  String.substring 0 (Z.to_nat i) s.

Definition slice_from (i : Z) (s : string) : string :=
  String.substring (Z.to_nat i) (String.length s - Z.to_nat i) s.

Fixpoint lstrip (c : ascii) (s : string) : string :=
  match s with
  | String d rest => if Ascii.eqb d c then lstrip c rest else s
  | EmptyString => EmptyString
  end.

(** [s.rstrip(c)] *)
Definition rstrip (c : ascii) (s : string) : string :=
  String.rev (lstrip c (String.rev s)).

(** [c * n] *)
Fixpoint replicate (n : nat) (c : ascii) : string :=
  match n with
  | O => EmptyString
  | S k => String c (replicate k c)
  end.

End PyStr.

(** ** The three [posixpath] functions of the key normalisation *)

Module posixpath.

Import PyStr.

(** One turn of the loop over [comps] in [normpath]. *)
Definition normpath_step (initial_slashes : nat) (new_comps : list string)
    (comp : string) : list string :=
  if bool_decide (comp = "") || bool_decide (comp = ".") then new_comps
  else if negb (bool_decide (comp = ".."))
          || (bool_decide (initial_slashes = O)
              && bool_decide (new_comps = []))
          || (negb (bool_decide (new_comps = []))
              && bool_decide (last new_comps = Some ".."))
       then new_comps ++ [comp]
       else match new_comps with
            | [] => new_comps
            | _ => removelast new_comps
            end.

Definition normpath (path : string) : string :=
  if bool_decide (path = "") then "."
  else
    let initial_slashes : nat :=
      if startswith "/" path
      then if startswith "//" path && negb (startswith "///" path)
           then 2%nat else 1%nat
      else 0%nat in
    let comps := split slash path in
    let comps := fold_left (normpath_step initial_slashes) comps [] in
    let path := join "/" comps in
    let path := replicate initial_slashes slash ++ path in
    if bool_decide (path = "") then "." else path.

Definition split (p : string) : string * string :=
  let i := rfind slash p + 1 in
  let head := slice_to i p in
  let tail := slice_from i p in
  let head :=
    if negb (bool_decide (head = ""))
       && negb (bool_decide (head = replicate (String.length head) slash))
    then rstrip slash head else head in
  (head, tail).

Definition join_step (path b : string) : string :=
  if startswith "/" b then b
  else if bool_decide (path = "") || endswith "/" path then path ++ b
  else path ++ "/" ++ b.

Definition join (a : string) (p : list string) : string :=
  fold_left join_step p a.

End posixpath.

(** ** Exceptions and outcomes *)

(** The exceptions that the module raises itself ([NoDataError],
    [ParseError]) and those that its statements raise on the inputs modelled
    here: a missing dict key, an attribute or an item of [None], [os.stat]
    on a missing file, a missing bucket, [raise NotImplemented]. *)
Inductive exn : Type :=
  | NoDataError (msg : string)
  | ParseError (msg : string)
  | KeyError (key : Z)
  | AttributeError
  | TypeError
  | IndexError
  | OSError
  | S3ResponseError.

Inductive outcome (A : Type) : Type :=
  | Return (a : A)
  | Raise (e : exn).
Arguments Return {A} a.
Arguments Raise {A} e.

(** [int(x)] on a float: truncation towards zero. *)
Definition py_int (x : Q) : Z :=
  if Qle_bool 0 x then Qfloor x else Qceiling x.

(** ** Data *)

Definition bytes : Type := list Byte.byte.

(** The result of [urlparse]: the parts that the module reads. *)
Record ParseResult : Type := mkParseResult {
  netloc : string;
  path : string
}.

Inductive SourceClass : Type := BaseSource | FileSource | S3FileSource.

Section Sources.

(** The records held by a chunk collection, and the answer of its prefix
    lookup: both belong to [shavar.parse]. *)
Context {Chunk MatchResult : Type}.

(** [ChunkList] of [shavar.parse], as far as this module reads it. *)
Record ChunkList : Type := mkChunkList {
  adds : gmap Z Chunk;
  subs : gmap Z Chunk
}.

(** The collaborators: [urlparse.urlparse], [parse_file_source] (a parse
    failure carries its message) and [ChunkList.find_prefix]. *)
Variable urlparse : string -> ParseResult.
Variable parse_file_source : bytes -> string + ChunkList.
Variable ChunkList_find_prefix : ChunkList -> string -> MatchResult.

(** The attributes of a source object.  [current_etag] and [key_name] are
    set by [S3FileSource.__init__] only. *)
Record Source : Type := mkSource {
  class : SourceClass;
  source_url : string;
  url : ParseResult;
  interval : Z;
  last_refresh : Z;
  last_check : Z;
  chunks : option ChunkList;
  chunk_index : option (gset Z * gset Z);
  current_etag : option string;
  key_name : string
}.

Definition set_last_refresh (v : Z) (s : Source) : Source :=
  mkSource (class s) (source_url s) (url s) (interval s) v (last_check s)
    (chunks s) (chunk_index s) (current_etag s) (key_name s).
Definition set_last_check (v : Z) (s : Source) : Source :=
  mkSource (class s) (source_url s) (url s) (interval s) (last_refresh s) v
    (chunks s) (chunk_index s) (current_etag s) (key_name s).
Definition set_chunks (v : option ChunkList) (s : Source) : Source :=
  mkSource (class s) (source_url s) (url s) (interval s) (last_refresh s)
    (last_check s) v (chunk_index s) (current_etag s) (key_name s).
Definition set_chunk_index (v : option (gset Z * gset Z)) (s : Source)
    : Source :=
  mkSource (class s) (source_url s) (url s) (interval s) (last_refresh s)
    (last_check s) (chunks s) v (current_etag s) (key_name s).
Definition set_current_etag (v : option string) (s : Source) : Source :=
  mkSource (class s) (source_url s) (url s) (interval s) (last_refresh s)
    (last_check s) (chunks s) (chunk_index s) v (key_name s).

Definition set_key_name (v : string) (s : Source) : Source :=
  mkSource (class s) (source_url s) (url s) (interval s) (last_refresh s)
    (last_check s) (chunks s) (chunk_index s) (current_etag s) v.

(** ** The world outside the object *)

Record File : Type := mkFile {
  st_mtime : Q;
  file_data : bytes
}.

(** A [boto] key: its etag and its contents. *)
Record S3Key : Type := mkS3Key {
  etag : string;
  key_data : bytes
}.

(** What a method did, in order: the two overridable methods as they are
    entered, and every call that leaves the process. *)
Inductive event : Type :=
  | EvNeedsRefresh
  | EvLoad
  | EvStat (p : string)
  | EvExists (p : string)
  | EvOpen (p : string)
  | EvGetKey (bucket key : string)
  | EvGetContents (bucket key : string).

(** [clock n] is the [n]-th reading of [time.time()]; [ticks] counts the
    readings taken.  [s3] maps a bucket to its keys. *)
Record World : Type := mkWorld {
  clock : nat -> Q;
  ticks : nat;
  fs : gmap string File;
  s3 : gmap string (gmap string S3Key);
  log : list event
}.

Definition tick (w : World) : World :=
  mkWorld (clock w) (S (ticks w)) (fs w) (s3 w) (log w).
Definition emit (e : event) (w : World) : World :=
  mkWorld (clock w) (ticks w) (fs w) (s3 w) (log w ++ [e]).
(** The files and buckets change behind the program's back. *)
Definition set_backend (f : gmap string File)
    (b : gmap string (gmap string S3Key)) (w : World) : World :=
  mkWorld (clock w) (ticks w) f b (log w).

(** ** Methods as state transformers

    A method runs on the object and the world and gives its outcome
    together with the object and the world it leaves behind, also when it
    raises. *)
Definition M (A : Type) : Type :=
  Source -> World -> outcome A * Source * World.

Definition ret {A} (a : A) : M A := fun s w => (Return a, s, w).
Definition raise {A} (e : exn) : M A := fun s w => (Raise e, s, w).
Definition bind {A B} (m : M A) (k : A -> M B) : M B :=
  fun s w =>
    match m s w with
    | (Return a, s', w') => k a s' w'
    | (Raise e, s', w') => (Raise e, s', w')
    end.
Definition self : M Source := fun s w => (Return s, s, w).
Definition assign (f : Source -> Source) : M unit :=
  fun s w => (Return tt, f s, w).
Definition world : M World := fun s w => (Return w, s, w).
Definition trace (e : event) : M unit := fun s w => (Return tt, s, emit e w).

(** [int(time.time())] *)
Definition int_time : M Z :=
  fun s w => (Return (py_int (clock w (ticks w))), s, tick w).

Notation "x <- m ;; k" := (bind m (fun x => k))
  (at level 100, m at next level, right associativity).
Notation "m ;;; k" := (bind m (fun _ => k))
  (at level 100, right associativity).

(** ** class Source *)

(** [Source.__init__]; [cls] is the class being instantiated.  The
    attribute [prefixes] is set to [None] there and never read again: it is
    left out. *)
Definition Source_init (cls : SourceClass) (source_url : string)
    (refresh_interval : Z) : Source :=
  mkSource cls source_url (urlparse source_url) refresh_interval 0 0
    None None None "".

(** [Source.load]: [raise NotImplemented] raises a [TypeError], since
    [NotImplemented] is not an exception. *)
Definition Source_load : M unit := raise TypeError.

Definition _populate_chunks (fp : bytes)
    (parser_func : bytes -> string + ChunkList) : M unit :=
  match parser_func fp with
  | inr parsed =>
      assign (set_chunks (Some parsed)) ;;;
      t <- int_time ;; assign (set_last_check t) ;;;
      t <- int_time ;; assign (set_last_refresh t) ;;;
      s <- self ;;
      match chunks s with
      | Some c =>
          assign (set_chunk_index (Some (dom (adds c), dom (subs c))))
      | None => raise AttributeError
      end
  | inl e =>
      s <- self ;;
      raise (ParseError ("Error parsing " ++ PyStr.dquote ++ path (url s)
                         ++ PyStr.dquote ++ ": " ++ e))
  end.

(** [Source.needs_refresh] *)
Definition Source_needs_refresh : M bool := ret false.

(** ** class FileSource *)

Definition os_path_exists (p : string) : M bool :=
  trace (EvExists p) ;;;
  w <- world ;;
  ret (bool_decide (is_Some (fs w !! p))).

Definition os_stat (p : string) : M File :=
  trace (EvStat p) ;;;
  w <- world ;;
  match fs w !! p with
  | Some f => ret f
  | None => raise OSError
  end.

(** [open(p, 'rb')], read by the parser. *)
Definition open_rb (p : string) : M bytes :=
  trace (EvOpen p) ;;;
  w <- world ;;
  match fs w !! p with
  | Some f => ret (file_data f)
  | None => raise OSError
  end.

Definition FileSource_load : M unit :=
  s <- self ;;
  found <- os_path_exists (path (url s)) ;;
  if negb found
  then raise (NoDataError ("Known list, no data found: " ++ PyStr.dquote
                           ++ path (url s) ++ PyStr.dquote))
  else
    f <- open_rb (path (url s)) ;;
    _populate_chunks f parse_file_source.

Definition FileSource_needs_refresh : M bool :=
  s <- self ;;
  st <- os_stat (path (url s)) ;;
  if py_int (st_mtime st) <=? last_refresh s then ret false else ret true.

(** ** class S3FileSource *)

(** The loop [while '/' == elems[0]: elems.pop(0)]; [elems[0]] of an empty
    list raises. *)
Fixpoint pop_slashes (elems : list string) : outcome (list string) :=
  match elems with
  | [] => Raise IndexError
  | e :: rest =>
      if bool_decide ("/" = e) then pop_slashes rest else Return elems
  end.

(** The key name computed by [S3FileSource.__init__] from [url.path]. *)
Definition S3FileSource_key_name (url_path : string) : outcome string :=
  let (head, tail) := posixpath.split (posixpath.normpath url_path) in
  match pop_slashes [head; tail] with
  | Raise e => Raise e
  | Return [] => Raise TypeError
  | Return (a :: p) => Return (posixpath.join a p)
  end.

Definition S3FileSource_init (source_url : string) (refresh_interval : Z)
    : outcome Source :=
  let s := Source_init S3FileSource source_url refresh_interval in
  let s := set_current_etag None s in
  match S3FileSource_key_name (path (url s)) with
  | Raise e => Raise e
  | Return k =>
      Return (set_key_name k s)
  end.

(** [_get_key]: a missing bucket raises, a missing key is [None]. *)
Definition _get_key : M (option S3Key) :=
  s <- self ;;
  trace (EvGetKey (netloc (url s)) (key_name s)) ;;;
  w <- world ;;
  match s3 w !! netloc (url s) with
  | None => raise S3ResponseError
  | Some bucket => ret (bucket !! key_name s)
  end.

Definition S3FileSource_load : M unit :=
  s3key <- _get_key ;;
  match s3key with
  | None =>
      s <- self ;;
      raise (NoDataError ("No chunk file found at " ++ PyStr.dquote
                          ++ source_url s ++ PyStr.dquote))
  | Some k =>
      s <- self ;;
      trace (EvGetContents (netloc (url s)) (key_name s)) ;;;
      _populate_chunks (key_data k) parse_file_source ;;;
      assign (set_current_etag (Some (etag k)))
  end.

Definition S3FileSource_needs_refresh : M bool :=
  s3key <- _get_key ;;
  match s3key with
  | None => raise AttributeError
  | Some k =>
      s <- self ;;
      if bool_decide (Some (etag k) = current_etag s)
      then ret false else ret true
  end.

(** ** Method dispatch and the inherited methods *)

Definition load : M unit :=
  trace EvLoad ;;;
  s <- self ;;
  match class s with
  | BaseSource => Source_load
  | FileSource => FileSource_load
  | S3FileSource => S3FileSource_load
  end.

Definition needs_refresh : M bool :=
  trace EvNeedsRefresh ;;;
  s <- self ;;
  match class s with
  | BaseSource => Source_needs_refresh
  | FileSource => FileSource_needs_refresh
  | S3FileSource => S3FileSource_needs_refresh
  end.

Definition refresh : M bool :=
  now <- int_time ;;
  s <- self ;;
  if now - interval s >=? last_check s
  then
    assign (set_last_check now) ;;;
    stale <- needs_refresh ;;
    if stale then load ;;; ret true else ret false
  else ret false.

(** [self.chunks.adds[chunk_num]] and [self.chunks.subs[chunk_num]] *)
Definition chunks_item (field : ChunkList -> gmap Z Chunk) (chunk_num : Z)
    : M Chunk :=
  s <- self ;;
  match chunks s with
  | None => raise AttributeError
  | Some c =>
      match field c !! chunk_num with
      | Some x => ret x
      | None => raise (KeyError chunk_num)
      end
  end.

(** A [for] loop that appends one looked-up record per number. *)
Fixpoint collect (field : ChunkList -> gmap Z Chunk) (nums : list Z)
    (acc : list Chunk) : M (list Chunk) :=
  match nums with
  | [] => ret acc
  | n :: rest =>
      x <- chunks_item field n ;;
      collect field rest (acc ++ [x])
  end.

(** [fetch]: [adds] and [subs] in the order in which they are iterated. *)
Definition fetch (adds_req subs_req : list Z)
    : M (list Chunk * list Chunk) :=
  refresh ;;;
  a <- collect adds adds_req [] ;;
  b <- collect subs subs_req [] ;;
  ret (a, b).

Definition list_chunks : M (gset Z * gset Z) :=
  refresh ;;;
  s <- self ;;
  match chunk_index s with
  | None => raise TypeError
  | Some ix => ret (fst ix, snd ix)
  end.

Definition find_prefix (prefix : string) : M MatchResult :=
  s <- self ;;
  match chunks s with
  | None => raise AttributeError
  | Some c => ret (ChunkList_find_prefix c prefix)
  end.

End Sources.

(** ** Observations on states and traces *)

(** The number of staleness probes ([needs_refresh] calls) in a trace. *)
Definition is_probe (e : event) : bool :=
  match e with EvNeedsRefresh => true | _ => false end.

Definition probes (l : list event) : nat := length (filter is_probe l).

(** Whether a string contains a path separator. *)
Fixpoint has_slash (s : string) : bool :=
  match s with
  | EmptyString => false
  | String c rest => Ascii.eqb c PyStr.slash || has_slash rest
  end.

(** The number of [load] calls in a trace. *)
Definition is_load (e : event) : bool :=
  match e with EvLoad => true | _ => false end.

Definition loads (l : list event) : nat := length (filter is_load l).

(** The clock never runs backwards. *)
Definition clock_monotone (w : World) : Prop :=
  forall i j : nat, (i <= j)%nat -> Qle (clock w i) (clock w j).

(** The reading that the next [int(time.time())] gives in [w]. *)
Definition now_of (w : World) : Z := py_int (clock w (ticks w)).

(** The index is the pair of key sets of the collection, or both are still
    [None]. *)
Definition consistent {Chunk : Type} (s : @Source Chunk) : Prop :=
  match chunks s, chunk_index s with
  | Some c, Some ix => ix = (dom (adds c), dom (subs c))
  | None, None => True
  | _, _ => False
  end.

(** The calls that a client makes on a source. *)
Inductive call : Type :=
  | CallRefresh
  | CallLoad
  | CallFetch (adds_req subs_req : list Z)
  | CallListChunks
  | CallFindPrefix (prefix : string).

Section Runs.

Context {Chunk MatchResult : Type}.
Variable urlparse : string -> ParseResult.
Variable parse_file_source : bytes -> string + @ChunkList Chunk.
Variable ChunkList_find_prefix : @ChunkList Chunk -> string -> MatchResult.

(** The object and the world after a call, whatever its outcome. *)
Definition after {A} (r : outcome A * @Source Chunk * World)
    : @Source Chunk * World :=
  (snd (fst r), snd r).

Definition run_call (c : call) (s : @Source Chunk) (w : World)
    : @Source Chunk * World :=
  match c with
  | CallRefresh => after (refresh parse_file_source s w)
  | CallLoad => after (load parse_file_source s w)
  | CallFetch a b => after (fetch parse_file_source a b s w)
  | CallListChunks => after (list_chunks parse_file_source s w)
  | CallFindPrefix p => after (find_prefix ChunkList_find_prefix p s w)
  end.

(** The states that a source object goes through: built by a constructor,
    then any calls, each in a world that may have changed meanwhile. *)
Inductive reachable : @Source Chunk -> Prop :=
  | reach_init cls u i :
      cls <> S3FileSource ->
      reachable (Source_init urlparse cls u i)
  | reach_init_s3 u i s :
      S3FileSource_init urlparse u i = Return s ->
      reachable s
  | reach_call c s w :
      reachable s ->
      reachable (fst (run_call c s w)).

(** Successive [refresh] calls; before each one the files and buckets are
    replaced by the next element of [envs]. *)
Fixpoint refresh_each
    (envs : list (gmap string File * gmap string (gmap string S3Key)))
    (s : @Source Chunk) (w : World) : @Source Chunk * World :=
  match envs with
  | [] => (s, w)
  | (f, b) :: rest =>
      let '(s', w') :=
        after (refresh parse_file_source s (set_backend f b w)) in
      refresh_each rest s' w'
  end.

(** [needs_refresh] answers [False] on these files and buckets. *)
Definition reports_fresh (s : @Source Chunk)
    (env : gmap string File * gmap string (gmap string S3Key)) : Prop :=
  forall w : World,
    fst (fst (needs_refresh s (set_backend (fst env) (snd env) w)))
    = Return false.

(** The object after a load that succeeded: the collection [c] installed
    with both time stamps and the index, and [et] as [current_etag]. *)
Definition installed (c : @ChunkList Chunk) (et : option string)
    (s : @Source Chunk) (w : World) : @Source Chunk :=
  set_current_etag et
    (set_chunk_index (Some (dom (adds c), dom (subs c)))
       (set_last_refresh (py_int (clock w (S (ticks w))))
          (set_last_check (now_of w) (set_chunks (Some c) s)))).

(** What no call changes. *)
Definition same_configuration (s s' : @Source Chunk) : Prop :=
  class s' = class s /\ source_url s' = source_url s /\ url s' = url s
  /\ interval s' = interval s /\ key_name s' = key_name s.

End Runs.

(** ** A concrete instance, for running the model *)

Module Example.

(** A stand-in for [urlparse] on URLs of the form [scheme://netloc/path]:
    the network location runs up to the first slash after [://], the path
    is the rest. *)
Fixpoint after_scheme (u : string) : option string :=
  match u with
  | String ":" (String "/" (String "/" rest)) => Some rest
  | String _ rest => after_scheme rest
  | EmptyString => None
  end.

Fixpoint until_slash (u : string) : string * string :=
  match u with
  | EmptyString => (EmptyString, EmptyString)
  | String c rest =>
      if Ascii.eqb c PyStr.slash then (EmptyString, u)
      else let (a, b) := until_slash rest in (String c a, b)
  end.

Definition urlparse (u : string) : ParseResult :=
  match after_scheme u with
  | Some rest => let (n, p) := until_slash rest in mkParseResult n p
  | None => mkParseResult "" u
  end.

(** A stand-in parser: no bytes do not parse, anything else is the
    collection with add chunk 1 and sub chunk 2. *)
Definition parse (b : bytes) : string + @ChunkList (list string) :=
  match b with
  | [] => inl "no data"
  | _ => inr (mkChunkList {[ 1 := ["aa"] ]} {[ 2 := ["bb"] ]})
  end.

Definition find_prefix (c : @ChunkList (list string)) (p : string)
    : list Z :=
  map fst (filter (fun kv : Z * list string => bool_decide (p ∈ snd kv))
             (map_to_list (adds c))).

Definition clock (n : nat) : Q := inject_Z (100 + Z.of_nat n).

Definition files : gmap string File :=
  {[ "/f" := mkFile (101 # 2) [Byte.x31] ]}.

Definition buckets : gmap string (gmap string S3Key) :=
  {[ "bucket" := {[ "name" := mkS3Key "abc" [Byte.x31] ]} ]}.

Definition w0 : World := mkWorld clock 0 files buckets [].

(** The same clock, with no file and no bucket. *)
Definition w_bare : World := mkWorld clock 0 ∅ ∅ [].

(** A world whose clock starts at 5. *)
Definition w_early : World :=
  mkWorld (fun n => inject_Z (5 + Z.of_nat n)) 0 files buckets [].

Definition file_source : @Source (list string) :=
  Source_init urlparse FileSource "file:///f" 10.

Definition base_source : @Source (list string) :=
  Source_init urlparse BaseSource "file:///f" 10.

Definition s3_source : @Source (list string) :=
  match S3FileSource_init urlparse "s3+file://bucket/name" 10 with
  | Return s => s
  | Raise _ => Source_init urlparse S3FileSource "s3+file://bucket/name" 10
  end.

(** [file_source] after its first [refresh] in [w0], and the world then. *)
Definition file_source_loaded : @Source (list string) :=
  fst (after (refresh parse file_source w0)).

Definition w0_loaded : World := snd (after (refresh parse file_source w0)).

(** Twenty and twenty-five readings later, the file gone. *)
Definition w_gone : World := mkWorld clock 20 ∅ ∅ [].

Definition w_gone_later : World := mkWorld clock 25 ∅ ∅ [].

(** The collection that [parse] gives. *)
Definition parsed : @ChunkList (list string) :=
  mkChunkList {[ 1 := ["aa"] ]} {[ 2 := ["bb"] ]}.

End Example.

(** * Properties *)

Local Open Scope list_scope.

Lemma py_int_mono (x y : Q) : Qle x y -> py_int x <= py_int y.
Proof.
  intros Hxy. unfold py_int.
  destruct (Qle_bool 0 x) eqn:Hx; destruct (Qle_bool 0 y) eqn:Hy.
  - by apply Qfloor_resp_le.
  - apply Qle_bool_iff in Hx.
    assert (Qle 0 y) by (eapply Qle_trans; eauto).
    apply Qle_bool_iff in H. congruence.
  - apply Qle_bool_iff in Hy.
    assert (Hx' : Qlt x 0).
    { apply Qnot_le_lt. intros H. apply Qle_bool_iff in H. congruence. }
    transitivity 0.
    + change 0 with (Qceiling 0). apply Qceiling_resp_le. by apply Qlt_le_weak.
    + change 0 with (Qfloor 0). by apply Qfloor_resp_le.
  - by apply Qceiling_resp_le.
Qed.

Section Properties.
Context {Chunk MatchResult : Type}.
Variable urlparse : string -> ParseResult.
Variable parse_file_source : bytes -> string + @ChunkList Chunk.
Variable ChunkList_find_prefix : @ChunkList Chunk -> string -> MatchResult.

Abbreviation Src := (@Source Chunk).

(** Unfold the methods and the plumbing down to the matches on the world
    and on the parser. *)
Local Ltac run :=
  repeat progress
    (unfold load, needs_refresh, Source_load, Source_needs_refresh,
       FileSource_load, FileSource_needs_refresh, S3FileSource_load,
       S3FileSource_needs_refresh, _get_key, os_path_exists, os_stat,
       open_rb, bind, trace, self, world, assign, ret, raise;
     simpl).

Lemma probes_app l1 l2 : probes (l1 ++ l2) = (probes l1 + probes l2)%nat.
Proof. unfold probes. by rewrite filter_app, length_app. Qed.

Lemma probes_cons e l :
  probes (e :: l) = if is_probe e then S (probes l) else probes l.
Proof.
  unfold probes. rewrite filter_cons.
  destruct (decide _) as [H|H]; destruct (is_probe e); simpl in *;
    done || by destruct H.
Qed.

Lemma populate_ok fp c (s : Src) w :
  parse_file_source fp = inr c ->
  _populate_chunks fp parse_file_source s w
  = (Return tt,
     set_chunk_index (Some (dom (adds c), dom (subs c)))
       (set_last_refresh (py_int (clock w (S (ticks w))))
          (set_last_check (now_of w) (set_chunks (Some c) s))),
     tick (tick w)).
Proof. intros H. unfold _populate_chunks. rewrite H. reflexivity. Qed.

Lemma populate_fail fp e (s : Src) w :
  parse_file_source fp = inl e ->
  _populate_chunks fp parse_file_source s w
  = (Raise (ParseError ("Error parsing " ++ PyStr.dquote ++ path (url s)
                        ++ PyStr.dquote ++ ": " ++ e)%string), s, w).
Proof. intros H. unfold _populate_chunks. rewrite H. reflexivity. Qed.

Lemma needs_refresh_inv (s : Src) w r s' w' :
  needs_refresh s w = (r, s', w') ->
  s' = s /\ clock w' = clock w /\ ticks w' = ticks w /\ fs w' = fs w
  /\ s3 w' = s3 w
  /\ exists l, log w' = log w ++ EvNeedsRefresh :: l /\ probes l = O.
Proof.
  unfold needs_refresh, bind, trace, self; simpl.
  destruct (class s).
  - unfold Source_needs_refresh, ret. intros [= <- <- <-]; simpl.
    repeat split; auto. by exists [].
  - unfold FileSource_needs_refresh, os_stat, bind, trace, self, world; simpl.
    destruct (fs w !! path (url s)) as [f|]; simpl.
    + destruct (py_int (st_mtime f) <=? last_refresh s);
        intros [= <- <- <-]; simpl; repeat split; auto;
        exists [EvStat (path (url s))]; by rewrite <- app_assoc.
    + intros [= <- <- <-]; simpl; repeat split; auto;
        exists [EvStat (path (url s))]; by rewrite <- app_assoc.
  - unfold S3FileSource_needs_refresh, _get_key, bind, trace, self, world;
      simpl.
    destruct (s3 w !! netloc (url s)) as [bk|]; simpl.
    + destruct (bk !! key_name s) as [k|]; simpl.
      * destruct (bool_decide (Some (etag k) = current_etag s));
          intros [= <- <- <-]; simpl; repeat split; auto;
          exists [EvGetKey (netloc (url s)) (key_name s)];
          by rewrite <- app_assoc.
      * intros [= <- <- <-]; simpl; repeat split; auto;
          exists [EvGetKey (netloc (url s)) (key_name s)];
          by rewrite <- app_assoc.
    + intros [= <- <- <-]; simpl; repeat split; auto;
        exists [EvGetKey (netloc (url s)) (key_name s)];
        by rewrite <- app_assoc.
Qed.

Lemma load_inv (s : Src) w r s' w' :
  load parse_file_source s w = (r, s', w') ->
  clock w' = clock w /\ fs w' = fs w /\ s3 w' = s3 w
  /\ (exists l, log w' = log w ++ EvLoad :: l /\ probes l = O)
  /\ match r with
     | Raise _ => s' = s /\ ticks w' = ticks w
     | Return _ =>
         ticks w' = S (S (ticks w))
         /\ exists c et,
             s' = installed c et s w
             /\ match class s with
                | BaseSource => False
                | FileSource =>
                    et = current_etag s
                    /\ exists f, fs w !! path (url s) = Some f
                                 /\ parse_file_source (file_data f) = inr c
                | S3FileSource =>
                    exists bk k, s3 w !! netloc (url s) = Some bk
                                 /\ bk !! key_name s = Some k
                                 /\ parse_file_source (key_data k) = inr c
                                 /\ et = Some (etag k)
                end
     end.
Proof.
  unfold load, bind, trace, self; simpl.
  destruct (class s) eqn:Hc.
  - unfold Source_load, raise. intros [= <- <- <-]; simpl.
    repeat split; auto. by exists [].
  - unfold FileSource_load, os_path_exists, open_rb, bind, trace, self, world,
      ret, raise; simpl.
    destruct (fs w !! path (url s)) as [f|] eqn:Hf; simpl.
    + rewrite Hf.
      destruct (parse_file_source (file_data f)) as [e|c] eqn:Hp.
      * rewrite (populate_fail _ e) by done.
        intros [= <- <- <-]; simpl. repeat split; auto.
        exists [EvExists (path (url s)); EvOpen (path (url s))].
        by rewrite <- !app_assoc.
      * rewrite (populate_ok _ c) by done.
        intros [= <- <- <-]; simpl. repeat split; auto.
        -- exists [EvExists (path (url s)); EvOpen (path (url s))].
           by rewrite <- !app_assoc.
        -- exists c, (current_etag s). split; [|eauto].
           by destruct s.
    + intros [= <- <- <-]; simpl. repeat split; auto.
      exists [EvExists (path (url s))]. by rewrite <- !app_assoc.
  - unfold S3FileSource_load, _get_key, bind, trace, self, world, ret, raise,
      assign; simpl.
    destruct (s3 w !! netloc (url s)) as [bk|] eqn:Hb; simpl.
    + destruct (bk !! key_name s) as [k|] eqn:Hk; simpl.
      * destruct (parse_file_source (key_data k)) as [e|c] eqn:Hp.
        -- rewrite (populate_fail _ e) by done.
           intros [= <- <- <-]; simpl. repeat split; auto.
           exists [EvGetKey (netloc (url s)) (key_name s);
                   EvGetContents (netloc (url s)) (key_name s)].
           by rewrite <- !app_assoc.
        -- rewrite (populate_ok _ c) by done.
           intros [= <- <- <-]; simpl. repeat split; auto.
           ++ exists [EvGetKey (netloc (url s)) (key_name s);
                      EvGetContents (netloc (url s)) (key_name s)].
              by rewrite <- !app_assoc.
           ++ exists c, (Some (etag k)). split; [done|].
              exists bk, k. done.
      * intros [= <- <- <-]; simpl. repeat split; auto.
        exists [EvGetKey (netloc (url s)) (key_name s)].
        by rewrite <- !app_assoc.
    + intros [= <- <- <-]; simpl. repeat split; auto.
      exists [EvGetKey (netloc (url s)) (key_name s)].
      by rewrite <- !app_assoc.
Qed.

Lemma refresh_unfold (s : Src) w :
  refresh parse_file_source s w =
  if now_of w - interval s >=? last_check s then
    match needs_refresh (set_last_check (now_of w) s) (tick w) with
    | (Return true, s1, w1) =>
        match load parse_file_source s1 w1 with
        | (Return _, s2, w2) => (Return true, s2, w2)
        | (Raise e, s2, w2) => (Raise e, s2, w2)
        end
    | (Return false, s1, w1) => (Return false, s1, w1)
    | (Raise e, s1, w1) => (Raise e, s1, w1)
    end
  else (Return false, s, tick w).
Proof.
  unfold refresh, bind, int_time, self, assign, now_of; simpl.
  destruct (_ >=? _); [|done].
  destruct (needs_refresh _ _) as [[[[]|] ?] ?]; try done.
Qed.

Lemma collect_spec (field : @ChunkList Chunk -> gmap Z Chunk) c nums :
  forall acc (s : Src) w,
  chunks s = Some c ->
  (Forall (fun n => is_Some (field c !! n)) nums ->
     exists xs, collect field nums acc s w = (Return (acc ++ xs), s, w)
                /\ Forall2 (fun n x => field c !! n = Some x) nums xs)
  /\ (Exists (fun n => field c !! n = None) nums ->
     exists n, collect field nums acc s w = (Raise (KeyError n), s, w)
               /\ n ∈ nums /\ field c !! n = None).
Proof.
  induction nums as [|n rest IH]; intros acc s w Hc.
  - simpl. split.
    + intros _. exists []. by rewrite app_nil_r.
    + intros H. by apply Exists_nil in H.
  - assert (Hstep : collect field (n :: rest) acc s w =
                    match field c !! n with
                    | Some x => collect field rest (acc ++ [x]) s w
                    | None => (Raise (KeyError n), s, w)
                    end).
    { simpl. unfold bind at 1, chunks_item, bind, self. rewrite Hc.
      by destruct (field c !! n). }
    rewrite Hstep. split.
    + intros H. apply Forall_cons in H as [[x Hx] Hrest]. rewrite Hx.
      destruct (IH (acc ++ [x]) s w Hc) as [IH1 _].
      destruct (IH1 Hrest) as (xs & -> & HF).
      exists (x :: xs). rewrite <- app_assoc. split; [done|].
      by constructor.
    + intros H. destruct (field c !! n) as [x|] eqn:Hx.
      * apply Exists_cons in H as [H|H]; [congruence|].
        destruct (IH (acc ++ [x]) s w Hc) as [_ IH2].
        destruct (IH2 H) as (m & -> & Hm & Hnone).
        exists m. split; [done|]. split; [by right|done].
      * exists n. split; [done|]. split; [by left|done].
Qed.
(** [load] raises [NoDataError] when the file is absent, and [ParseError]
    when its bytes do not parse. *)
Lemma FileSource_load_no_data (s : Src) w :
  class s = FileSource ->
  fs w !! path (url s) = None ->
  exists msg w',
    load parse_file_source s w = (Raise (NoDataError msg), s, w').
Proof.
  intros Hc Hf.
  run. rewrite Hc. run. rewrite Hf. run. eauto.
Qed.

Lemma FileSource_load_parse_error (s : Src) w f e :
  class s = FileSource ->
  fs w !! path (url s) = Some f ->
  parse_file_source (file_data f) = inl e ->
  exists msg w',
    load parse_file_source s w = (Raise (ParseError msg), s, w').
Proof.
  intros Hc Hf He.
  run. rewrite Hc. run. rewrite Hf. run. rewrite Hf.
  rewrite (populate_fail _ e) by done. eauto.
Qed.

Lemma S3FileSource_load_no_data (s : Src) w bk :
  class s = S3FileSource ->
  s3 w !! netloc (url s) = Some bk ->
  bk !! key_name s = None ->
  exists msg w',
    load parse_file_source s w = (Raise (NoDataError msg), s, w').
Proof.
  intros Hc Hb Hk.
  run. rewrite Hc. run. rewrite Hb. run. rewrite Hk. eauto.
Qed.

(** C3: a [load] that raises leaves [chunks], [chunk_index], [last_check],
    [last_refresh] and [current_etag] as they were (the whole object, in
    fact); and an [S3FileSource] whose [load] returns has taken the etag of
    the key it read as its [current_etag]. *)
Theorem load_failure_keeps_state (s : Src) (w : World) :
  (forall e s' w',
      load parse_file_source s w = (Raise e, s', w') ->
      chunks s' = chunks s /\ chunk_index s' = chunk_index s
      /\ last_check s' = last_check s /\ last_refresh s' = last_refresh s
      /\ current_etag s' = current_etag s /\ s' = s)
  /\ (forall u s' w',
      class s = S3FileSource ->
      load parse_file_source s w = (Return u, s', w') ->
      exists bk k,
        s3 w !! netloc (url s) = Some bk /\ bk !! key_name s = Some k
        /\ current_etag s' = Some (etag k)).
Proof.
  split.
  - intros e s' w' H. apply load_inv in H as (_ & _ & _ & _ & -> & _).
    done.
  - intros u s' w' Hc H.
    apply load_inv in H as (_ & _ & _ & _ & _ & c & et & -> & H).
    rewrite Hc in H. destruct H as (bk & k & Hb & Hk & _ & ->).
    by exists bk, k.
Qed.

(** C6: on an existing file, [FileSource.needs_refresh] answers [True]
    exactly when the truncated modification time is strictly greater than
    [last_refresh], and [False] when it is less or equal; the object is
    not changed. *)
Theorem FileSource_needs_refresh_mtime (s : Src) (w : World) (f : File) :
  class s = FileSource ->
  fs w !! path (url s) = Some f ->
  exists b w',
    needs_refresh s w = (Return b, s, w')
    /\ (b = true <-> last_refresh s < py_int (st_mtime f))
    /\ (py_int (st_mtime f) <= last_refresh s -> b = false).
Proof.
  intros Hc Hf.
  run. rewrite Hc. run. rewrite Hf. run.
  destruct (Z.leb_spec (py_int (st_mtime f)) (last_refresh s)).
  - eexists _, _. split; [done|]. split; [|done].
    split; [done|lia].
  - eexists _, _. split; [done|]. split; [|lia]. done.
Qed.

(** The answer of [S3FileSource.needs_refresh] on an existing key. *)
Lemma S3FileSource_needs_refresh_eq (s : Src) w bk k :
  class s = S3FileSource ->
  s3 w !! netloc (url s) = Some bk ->
  bk !! key_name s = Some k ->
  fst (fst (needs_refresh s w))
  = Return (negb (bool_decide (Some (etag k) = current_etag s))).
Proof.
  intros Hc Hb Hk.
  run. rewrite Hc. run. rewrite Hb. run. rewrite Hk.
  by destruct (bool_decide _).
Qed.

(** C7: on an existing key, [S3FileSource.needs_refresh] answers [True]
    exactly when the key's etag differs from [current_etag]; a freshly
    constructed source has no [current_etag] and is stale; and after a
    [load] that returned, [current_etag] is the etag of the key read, so
    that a check against a key with that etag answers [False]. *)
Theorem S3FileSource_needs_refresh_etag (s : Src) (w : World)
    (bk : gmap string S3Key) (k : S3Key) :
  class s = S3FileSource ->
  s3 w !! netloc (url s) = Some bk ->
  bk !! key_name s = Some k ->
  (exists b, fst (fst (needs_refresh s w)) = Return b
             /\ (b = true <-> Some (etag k) <> current_etag s))
  /\ (forall u i, S3FileSource_init urlparse u i = Return s ->
                  fst (fst (needs_refresh s w)) = Return true)
  /\ (forall r s' w',
        load parse_file_source s w = (Return r, s', w') ->
        current_etag s' = Some (etag k)
        /\ forall w2 bk2 k2,
            s3 w2 !! netloc (url s) = Some bk2 ->
            bk2 !! key_name s = Some k2 ->
            etag k2 = etag k ->
            fst (fst (needs_refresh s' w2)) = Return false).
Proof.
  intros Hc Hb Hk. split; [|split].
  - rewrite (S3FileSource_needs_refresh_eq s w bk k) by done.
    eexists; split; [done|]. case_bool_decide; simpl; split; try done.
  - intros u i Hi.
    rewrite (S3FileSource_needs_refresh_eq s w bk k) by done.
    unfold S3FileSource_init in Hi.
    destruct (S3FileSource_key_name _); [|done].
    injection Hi as <-. reflexivity.
  - intros r s' w' H.
    apply load_inv in H as (_ & _ & _ & _ & _ & c & et & -> & H).
    rewrite Hc in H. destruct H as (bk' & k' & Hb' & Hk' & _ & ->).
    assert (k' = k) as -> by congruence.
    split; [done|]. intros w2 bk2 k2 Hb2 Hk2 He.
    rewrite (S3FileSource_needs_refresh_eq _ w2 bk2 k2) by done.
    simpl. rewrite He. by rewrite bool_decide_true.
Qed.

(** What one [refresh] does, by cases on the interval gate and on the
    outcome of the probe and of the load. *)
Lemma refresh_inv (s : Src) w r s' w' :
  refresh parse_file_source s w = (r, s', w') ->
  clock w' = clock w /\ fs w' = fs w /\ s3 w' = s3 w
  /\ interval s' = interval s /\ (ticks w < ticks w')%nat
  /\ ((now_of w - interval s < last_check s
       /\ r = Return false /\ s' = s /\ w' = tick w)
      \/ (last_check s <= now_of w - interval s
          /\ probes (log w') = S (probes (log w))
          /\ ((r <> Return true /\ s' = set_last_check (now_of w) s)
              \/ (r = Return true
                  /\ exists c et,
                      s' = installed c et (set_last_check (now_of w) s)
                             (tick w))))).
Proof.
  rewrite refresh_unfold.
  destruct (Z.geb_spec (now_of w - interval s) (last_check s)) as [Hg|Hg].
  2:{ intros [= <- <- <-].
      repeat split; auto; left; repeat split; auto; lia. }
  destruct (needs_refresh _ _) as [[r1 s1] w1] eqn:Hn.
  apply needs_refresh_inv in Hn as (-> & Hck & Htk & Hfs & Hs3 & l & Hl & Hp).
  assert (Hpr : probes (log w1) = S (probes (log w))).
  { rewrite Hl. simpl. rewrite probes_app, probes_cons. simpl. lia. }
  simpl in Hck, Htk, Hfs, Hs3, Hl.
  destruct r1 as [[|]|e].
  - destruct (load _ _ _) as [[r2 s2] w2] eqn:Hld.
    apply load_inv in Hld as (Hck2 & Hfs2 & Hs32 & (l2 & Hl2 & Hp2) & H2).
    assert (Hpr2 : probes (log w2) = S (probes (log w))).
    { rewrite Hl2, probes_app, probes_cons. simpl. lia. }
    destruct r2 as [u|e].
    + destruct H2 as (Htk2 & c & et & -> & _).
      intros [= <- <- <-]. simpl.
      split_and!; try congruence; try lia; [].
      right. split_and!; [lia|done|]. right. split; [done|].
      exists c, et. unfold installed, now_of. by rewrite Hck, Htk.
    + destruct H2 as (-> & Htk2).
      intros [= <- <- <-]. simpl.
      split_and!; try congruence; try lia; [].
      right. split_and!; [lia|done|]. left. done.
  - intros [= <- <- <-]. simpl.
    split_and!; try congruence; try lia; [].
    right. split_and!; [lia|done|]. left. done.
  - intros [= <- <- <-]. simpl.
    split_and!; try congruence; try lia; [].
    right. split_and!; [lia|done|]. left. done.
Qed.

(** C2: inside the interval [refresh] answers [False], changes no field
    and calls neither [needs_refresh] nor [load] (the world only has one
    more clock reading); otherwise the probe and what follows it run on
    the object in which [last_check] is already [now]; and two calls less
    than [interval] apart, on a clock that does not run backwards, make at
    most one probe between them, whatever happens to the files and buckets
    in between. *)
Theorem refresh_interval_gate (s : Src) (w : World) :
  (now_of w - last_check s < interval s ->
     refresh parse_file_source s w = (Return false, s, tick w)
     /\ log (tick w) = log w)
  /\ (~ now_of w - last_check s < interval s ->
     refresh parse_file_source s w
     = bind needs_refresh
         (fun stale =>
            if stale then bind (load parse_file_source) (fun _ => ret true)
            else ret false)
         (set_last_check (now_of w) s) (tick w)
     /\ probes (log (snd (refresh parse_file_source s w)))
        = S (probes (log w)))
  /\ (forall f b,
        clock_monotone w ->
        let r1 := refresh parse_file_source s w in
        let w1 := set_backend f b (snd r1) in
        let r2 := refresh parse_file_source (snd (fst r1)) w1 in
        now_of w1 - now_of w < interval s ->
        (probes (log (snd r2)) <= S (probes (log w)))%nat).
Proof.
  split; [|split].
  - intros H. split; [|done]. rewrite refresh_unfold.
    destruct (Z.geb_spec (now_of w - interval s) (last_check s)); [lia|done].
  - intros H. split.
    + unfold refresh, bind at 1, int_time. fold (now_of w).
      unfold bind at 1, self.
      destruct (Z.geb_spec (now_of w - interval s) (last_check s)); [|lia].
      reflexivity.
    + destruct (refresh _ _ _) as [[r s'] w'] eqn:Hr.
      apply refresh_inv in Hr as (_ & _ & _ & _ & _ & [Hc|Ho]); simpl.
      * lia.
      * by destruct Ho as (_ & -> & _).
  - intros f b Hmono r1 w1 r2 Hclose. subst r2 w1.
    destruct r1 as [[r s'] w'] eqn:Hr1. subst r1. simpl in *.
    pose proof Hr1 as Hinv.
    apply refresh_inv in Hinv as (Hck & _ & _ & Hint & Htk & Hcases).
    destruct (refresh _ s' _) as [[r2 s2] w2] eqn:Hr2. simpl.
    apply refresh_inv in Hr2 as (_ & _ & _ & _ & _ & Hcases2).
    simpl in Hcases2.
    destruct Hcases as [(_ & _ & -> & ->)|(Hopen & Hp1 & Hs')].
    + destruct Hcases2 as [(_ & _ & _ & ->)|(_ & -> & _)]; simpl; lia.
    + assert (Hlc : now_of w <= last_check s').
      { destruct Hs' as [[_ ->]|(_ & c & et & ->)]; simpl.
        - apply Z.le_refl.
        - unfold now_of. apply py_int_mono, Hmono. simpl. lia. }
      unfold now_of in Hclose at 1. simpl in Hclose.
      destruct Hcases2 as [(_ & _ & _ & ->)|(Hopen2 & _)].
      * simpl. lia.
      * unfold now_of in Hopen2 at 1. simpl in Hopen2. lia.
Qed.


(** [needs_refresh] does not read [last_check]. *)
Lemma needs_refresh_last_check (s : Src) w v :
  fst (fst (needs_refresh (set_last_check v s) w))
  = fst (fst (needs_refresh s w)).
Proof.
  run. destruct (class s); run; [done| |].
  - destruct (fs w !! path (url s)); run; [|done].
    by destruct (_ <=? _).
  - destruct (s3 w !! netloc (url s)) as [bk|]; run; [|done].
    destruct (bk !! key_name s); [|done].
    by destruct (bool_decide _).
Qed.

(** One [refresh] that does not answer [True] changes [last_check] at
    most. *)
Lemma refresh_fresh_step (s : Src) w r s' w' :
  refresh parse_file_source s w = (r, s', w') ->
  class s = BaseSource
  \/ fst (fst (needs_refresh s (tick w))) = Return false ->
  s' = set_last_check (last_check s') s
  /\ (0 <= interval s -> last_check s <= last_check s').
Proof.
  intros H Hfresh. rewrite refresh_unfold in H.
  destruct (Z.geb_spec (now_of w - interval s) (last_check s)) as [Hg|Hg].
  2:{ injection H as <- <- <-. split; [by destruct s|lia]. }
  assert (Hn : fst (fst (needs_refresh (set_last_check (now_of w) s)
                           (tick w))) = Return false).
  { rewrite needs_refresh_last_check. destruct Hfresh as [Hc|Hf]; [|done].
    run. by rewrite Hc. }
  destruct (needs_refresh _ _) as [[r1 s1] w1] eqn:Hnr. simpl in Hn.
  subst r1. apply needs_refresh_inv in Hnr as (-> & _).
  injection H as <- <- <-. simpl. split; [done|lia].
Qed.

(** A source that differs from [s] in [last_check] only behaves like [s]
    at the probe and keeps its class. *)
Lemma refresh_each_fresh envs :
  forall (s s0 : Src) w,
    s = set_last_check (last_check s) s0 ->
    class s0 = BaseSource
    \/ Forall (reports_fresh s0) envs ->
    let s' := fst (refresh_each parse_file_source envs s w) in
    s' = set_last_check (last_check s') s0
    /\ (0 <= interval s0 -> last_check s <= last_check s').
Proof.
  induction envs as [|[f b] rest IH]; intros s s0 w Hs Hfresh; simpl.
  - split; [done|lia].
  - destruct (refresh _ _ _) as [[r s1] w1] eqn:Hr. simpl.
    apply refresh_fresh_step in Hr as [Hs1 Hle].
    + destruct (IH s1 s0 w1) as [IH1 IH2].
      * rewrite Hs1, Hs. by destruct s0.
      * destruct Hfresh as [Hc|HF]; [by left|right].
        by apply Forall_cons in HF as [_ HF].
      * split; [done|]. intros Hi.
        assert (interval s = interval s0) as Hint
          by (rewrite Hs; reflexivity).
        specialize (IH2 Hi). rewrite Hint in Hle. lia.
    + destruct Hfresh as [Hc|HF].
      * left. rewrite Hs. exact Hc.
      * right. apply Forall_cons in HF as [HF _].
        rewrite Hs, needs_refresh_last_check.
        exact (HF (tick w)).
Qed.

(** C8: when [needs_refresh] answers [False] at every call (as it always
    does for the base [Source]), any number of [refresh] calls leaves
    [chunks], [chunk_index] and [last_refresh] unchanged: the final object
    is the first one up to [last_check], which does not go back when the
    interval is not negative. *)
Theorem refresh_fresh_is_idempotent
    (envs : list (gmap string File * gmap string (gmap string S3Key)))
    (s : Src) (w : World) :
  class s = BaseSource \/ Forall (reports_fresh s) envs ->
  let s' := fst (refresh_each parse_file_source envs s w) in
  chunks s' = chunks s /\ chunk_index s' = chunk_index s
  /\ last_refresh s' = last_refresh s
  /\ s' = set_last_check (last_check s') s
  /\ (0 <= interval s -> last_check s <= last_check s').
Proof.
  intros Hfresh s'.
  destruct (refresh_each_fresh envs s s w) as [H1 H2];
    [by destruct s|done|].
  fold s' in H1, H2. split_and!; try done; by rewrite H1.
Qed.

(** The lookups of [fetch] change neither the object nor the world. *)
Lemma collect_frame (field : @ChunkList Chunk -> gmap Z Chunk) nums :
  forall acc (s : Src) w,
    after (collect field nums acc s w) = (s, w).
Proof.
  induction nums as [|n rest IH]; intros acc s w; [done|].
  simpl. unfold bind at 1, chunks_item, bind, self.
  destruct (chunks s) as [c|]; [|done].
  destruct (field c !! n); [|done]. apply IH.
Qed.

Lemma fetch_frame adds_req subs_req (s : Src) w :
  after (fetch parse_file_source adds_req subs_req s w)
  = after (refresh parse_file_source s w).
Proof.
  unfold fetch, bind at 1.
  destruct (refresh _ _ _) as [[[r|e] s1] w1]; [|done].
  unfold bind at 1.
  pose proof (collect_frame adds adds_req [] s1 w1) as Ha.
  destruct (collect adds _ _ _ _) as [[[a|e] s2] w2];
    injection Ha as -> ->; [|done].
  unfold bind at 1.
  pose proof (collect_frame subs subs_req [] s1 w1) as Hb.
  by destruct (collect subs _ _ _ _) as [[[b|e] s2] w2];
    injection Hb as -> ->.
Qed.

Lemma list_chunks_frame (s : Src) w :
  after (list_chunks parse_file_source s w)
  = after (refresh parse_file_source s w).
Proof.
  unfold list_chunks, bind at 1.
  destruct (refresh _ _ _) as [[[r|e] s1] w1]; [|done].
  unfold bind, self. by destruct (chunk_index s1).
Qed.

Lemma find_prefix_eq p (s : Src) w :
  find_prefix ChunkList_find_prefix p s w
  = (match chunks s with
     | Some c => Return (ChunkList_find_prefix c p)
     | None => Raise AttributeError
     end, s, w).
Proof. unfold find_prefix, bind, self. by destruct (chunks s). Qed.

Lemma consistent_load (s : Src) w :
  consistent s -> consistent (fst (after (load parse_file_source s w))).
Proof.
  intros Hs. destruct (load _ _ _) as [[r s'] w'] eqn:Hl.
  apply load_inv in Hl as (_ & _ & _ & _ & H). simpl.
  destruct r as [u|e].
  - by destruct H as (_ & c & et & -> & _).
  - by destruct H as [-> _].
Qed.

Lemma consistent_refresh (s : Src) w :
  consistent s -> consistent (fst (after (refresh parse_file_source s w))).
Proof.
  intros Hs. destruct (refresh _ _ _) as [[r s'] w'] eqn:Hr.
  apply refresh_inv in Hr as (_ & _ & _ & _ & _ & H). simpl.
  destruct H as [(_ & _ & -> & _)|(_ & _ & [[_ ->]|(_ & c & et & ->)])];
    done.
Qed.

Lemma consistent_init cls u i :
  consistent (Source_init (Chunk:=Chunk) urlparse cls u i).
Proof. done. Qed.

Lemma consistent_reachable (s : Src) :
  reachable urlparse parse_file_source ChunkList_find_prefix s ->
  consistent s.
Proof.
  induction 1 as [cls u i _|u i s Hi|c s w _ IH].
  - apply consistent_init.
  - unfold S3FileSource_init in Hi.
    destruct (S3FileSource_key_name _); [|done]. by injection Hi as <-.
  - destruct c; unfold run_call.
    + by apply consistent_refresh.
    + by apply consistent_load.
    + rewrite fetch_frame. by apply consistent_refresh.
    + rewrite list_chunks_frame. by apply consistent_refresh.
    + by rewrite find_prefix_eq.
Qed.

(** C5: after a [load] that returned, [chunk_index] holds exactly the key
    sets of [chunks.adds] and [chunks.subs]; and in every state that a
    source goes through between calls ([refresh], [load], [fetch],
    [list_chunks], [find_prefix], returning or raising, in any worlds) the
    index is the pair of key sets of the collection held, or both are still
    [None]. *)
Theorem chunk_index_matches_chunks (s : Src) (w : World) :
  (forall u s' w',
      load parse_file_source s w = (Return u, s', w') ->
      exists c A B,
        chunks s' = Some c /\ chunk_index s' = Some (A, B)
        /\ A = dom (adds c) /\ B = dom (subs c)
        /\ (forall n, n ∈ A <-> is_Some (adds c !! n))
        /\ (forall n, n ∈ B <-> is_Some (subs c !! n)))
  /\ (reachable urlparse parse_file_source ChunkList_find_prefix s ->
      consistent s).
Proof.
  split; [|apply consistent_reachable].
  intros u s' w' H.
  apply load_inv in H as (_ & _ & _ & _ & _ & c & et & -> & _).
  exists c, (dom (adds c)), (dom (subs c)).
  split_and!; try done; intros n; apply elem_of_dom.
Qed.

(** C9: [find_prefix] is the prefix lookup of the collection held (an
    [AttributeError] if there is none) and changes neither the object nor
    the world: no clock reading, no probe, no load.  [fetch] and
    [list_chunks] leave the object and the world exactly as [refresh]
    does, and [refresh] always reads the clock. *)
Theorem find_prefix_does_not_refresh (prefix : string) (s : Src)
    (w : World) :
  find_prefix ChunkList_find_prefix prefix s w
  = (match chunks s with
     | Some c => Return (ChunkList_find_prefix c prefix)
     | None => Raise AttributeError
     end, s, w)
  /\ (forall adds_req subs_req,
        after (fetch parse_file_source adds_req subs_req s w)
        = after (refresh parse_file_source s w))
  /\ after (list_chunks parse_file_source s w)
     = after (refresh parse_file_source s w)
  /\ (ticks w < ticks (snd (refresh parse_file_source s w)))%nat.
Proof.
  split_and!.
  - apply find_prefix_eq.
  - intros a b. apply fetch_frame.
  - apply list_chunks_frame.
  - destruct (refresh _ _ _) as [[r s'] w'] eqn:Hr.
    by apply refresh_inv in Hr as (_ & _ & _ & _ & Ht & _).
Qed.

Lemma fetch_after_refresh adds_req subs_req (s : Src) w r s1 w1 c :
  refresh parse_file_source s w = (Return r, s1, w1) ->
  chunks s1 = Some c ->
  ((exists n, (n ∈ adds_req /\ adds c !! n = None)
              \/ (n ∈ subs_req /\ subs c !! n = None)) ->
     exists n,
       fetch parse_file_source adds_req subs_req s w
       = (Raise (KeyError n), s1, w1)
       /\ ((n ∈ adds_req /\ adds c !! n = None)
           \/ (n ∈ subs_req /\ subs c !! n = None)))
  /\ ((forall n, n ∈ adds_req -> is_Some (adds c !! n)) ->
      (forall n, n ∈ subs_req -> is_Some (subs c !! n)) ->
      exists a b,
        fetch parse_file_source adds_req subs_req s w
        = (Return (a, b), s1, w1)
        /\ Forall2 (fun n x => adds c !! n = Some x) adds_req a
        /\ Forall2 (fun n x => subs c !! n = Some x) subs_req b).
Proof.
  intros Hr Hc.
  destruct (collect_spec adds c adds_req [] s1 w1 Hc) as [Ha1 Ha2].
  destruct (collect_spec subs c subs_req [] s1 w1 Hc) as [Hb1 Hb2].
  split.
  - intros Hmiss.
    destruct (decide (Exists (fun n => adds c !! n = None) adds_req))
      as [He|He].
    + destruct (Ha2 He) as (n & Hn & Hin & Hnone).
      exists n. split; [|by left].
      unfold fetch, bind at 1. rewrite Hr. unfold bind at 1.
      by rewrite Hn.
    + apply not_Exists_Forall in He; [|intros ?; apply _].
      assert (Hall : Forall (fun n => is_Some (adds c !! n)) adds_req).
      { eapply Forall_impl; [exact He|]. simpl. intros n Hn.
        destruct (adds c !! n); [eauto|done]. }
      destruct (Ha1 Hall) as (xs & Hxs & _).
      assert (Hsub : Exists (fun n => subs c !! n = None) subs_req).
      { destruct Hmiss as (n & [[Hin Hn]|[Hin Hn]]).
        - rewrite Forall_forall in Hall.
          destruct (Hall n Hin) as [x Hx]. congruence.
        - apply Exists_exists. eauto. }
      destruct (Hb2 Hsub) as (n & Hn & Hin & Hnone).
      exists n. split; [|by right].
      unfold fetch, bind at 1. rewrite Hr. unfold bind at 1.
      rewrite Hxs. unfold bind at 1. by rewrite Hn.
  - intros HA HB.
    destruct Ha1 as (a & Ha & HFa); [by apply Forall_forall|].
    destruct Hb1 as (b & Hb & HFb); [by apply Forall_forall|].
    exists a, b. split; [|done].
    unfold fetch, bind at 1. rewrite Hr. unfold bind at 1.
    rewrite Ha. unfold bind at 1. by rewrite Hb.
Qed.

(** C4, as amended: [fetch] first calls [refresh], and when that raises,
    [fetch] raises the same exception and looks nothing up.  Once that
    [refresh] has returned, with a collection [c] then held: if some
    requested number is not a key of the map it is looked up in, [fetch]
    raises [KeyError] on such a number and returns nothing; if all are
    keys, it returns the records of all the requested numbers, in the
    order requested.  And whenever [fetch] returns at all, what it returns
    is the record of every requested number in the collection then held:
    never a partial or a filled-in answer. *)
Theorem fetch_all_or_key_error (adds_req subs_req : list Z) (s : Src)
    (w : World) :
  (forall r s1 w1 c,
      refresh parse_file_source s w = (Return r, s1, w1) ->
      chunks s1 = Some c ->
      ((exists n, (n ∈ adds_req /\ adds c !! n = None)
                  \/ (n ∈ subs_req /\ subs c !! n = None)) ->
         exists n,
           fetch parse_file_source adds_req subs_req s w
           = (Raise (KeyError n), s1, w1)
           /\ ((n ∈ adds_req /\ adds c !! n = None)
               \/ (n ∈ subs_req /\ subs c !! n = None)))
      /\ ((forall n, n ∈ adds_req -> is_Some (adds c !! n)) ->
          (forall n, n ∈ subs_req -> is_Some (subs c !! n)) ->
          exists a b,
            fetch parse_file_source adds_req subs_req s w
            = (Return (a, b), s1, w1)
            /\ Forall2 (fun n x => adds c !! n = Some x) adds_req a
            /\ Forall2 (fun n x => subs c !! n = Some x) subs_req b))
  /\ (forall a b s' w' c,
        fetch parse_file_source adds_req subs_req s w
        = (Return (a, b), s', w') ->
        chunks s' = Some c ->
        Forall2 (fun n x => adds c !! n = Some x) adds_req a
        /\ Forall2 (fun n x => subs c !! n = Some x) subs_req b)
  /\ (forall e s1 w1,
        refresh parse_file_source s w = (Raise e, s1, w1) ->
        fetch parse_file_source adds_req subs_req s w = (Raise e, s1, w1)).
Proof.
  split; [intros r s1 w1 c; apply fetch_after_refresh|].
  split; [|intros e s1 w1 Hr; unfold fetch, bind at 1; by rewrite Hr].
  intros a b s' w' c Hf Hc.
  pose proof (fetch_frame adds_req subs_req s w) as Hfr.
  rewrite Hf in Hfr. unfold after in Hfr. simpl in Hfr.
  destruct (refresh parse_file_source s w) as [[[r|e] s1] w1] eqn:Hr.
  2:{ unfold fetch, bind at 1 in Hf. by rewrite Hr in Hf. }
  simpl in Hfr. injection Hfr as -> ->.
  destruct (fetch_after_refresh adds_req subs_req s w r s1 w1 c Hr Hc)
    as [Hmiss Hall].
  destruct (decide (Exists (fun n => adds c !! n = None) adds_req))
    as [He|He].
  { apply Exists_exists in He as (n & Hin & Hn).
    destruct Hmiss as (m & Hm & _); [by exists n; left|]. congruence. }
  destruct (decide (Exists (fun n => subs c !! n = None) subs_req))
    as [He'|He'].
  { apply Exists_exists in He' as (n & Hin & Hn).
    destruct Hmiss as (m & Hm & _); [by exists n; right|]. congruence. }
  destruct Hall as (a' & b' & Hab & HFa & HFb).
  - intros n Hn. destruct (adds c !! n) eqn:Hl; [eauto|].
    exfalso. apply He, Exists_exists. eauto.
  - intros n Hn. destruct (subs c !! n) eqn:Hl; [eauto|].
    exfalso. apply He', Exists_exists. eauto.
  - rewrite Hf in Hab. by injection Hab as -> ->.
Qed.

(** ** Further properties of the methods *)

Lemma loads_app l1 l2 : loads (l1 ++ l2) = (loads l1 + loads l2)%nat.
Proof. unfold loads. by rewrite filter_app, length_app. Qed.

Lemma loads_cons e l :
  loads (e :: l) = if is_load e then S (loads l) else loads l.
Proof.
  unfold loads. rewrite filter_cons.
  destruct (decide _) as [H|H]; destruct (is_load e); simpl in *;
    done || by destruct H.
Qed.

Lemma loads_snoc l e :
  loads (l ++ [e]) = if is_load e then S (loads l) else loads l.
Proof.
  rewrite loads_app, loads_cons. change (loads []) with O.
  destruct (is_load e); lia.
Qed.

(** The probe logs no [load]. *)
Lemma needs_refresh_loads (s : Src) w :
  loads (log (snd (needs_refresh s w))) = loads (log w).
Proof.
  run. destruct (class s); run.
  - by rewrite loads_snoc.
  - destruct (fs w !! path (url s)) as [f|]; run;
      [destruct (_ <=? _)|]; simpl; by rewrite !loads_snoc.
  - destruct (s3 w !! netloc (url s)) as [bk|]; run;
      [destruct (bk !! key_name s); [destruct (bool_decide _)|]|];
      simpl; by rewrite !loads_snoc.
Qed.

(** One [load] logs itself once. *)
Lemma load_loads (s : Src) w :
  loads (log (snd (load parse_file_source s w))) = S (loads (log w)).
Proof.
  run. destruct (class s); run.
  - by rewrite loads_snoc.
  - destruct (fs w !! path (url s)) as [f|] eqn:Hf; run.
    + rewrite Hf.
      destruct (parse_file_source (file_data f)) as [e|c] eqn:Hp.
      * rewrite (populate_fail _ e) by done. simpl. by rewrite !loads_snoc.
      * rewrite (populate_ok _ c) by done. simpl. by rewrite !loads_snoc.
    + by rewrite !loads_snoc.
  - destruct (s3 w !! netloc (url s)) as [bk|]; run.
    + destruct (bk !! key_name s) as [k|]; run.
      * destruct (parse_file_source (key_data k)) as [e|c] eqn:Hp.
        -- rewrite (populate_fail _ e) by done. simpl.
           by rewrite !loads_snoc.
        -- rewrite (populate_ok _ c) by done. simpl.
           by rewrite !loads_snoc.
      * by rewrite !loads_snoc.
    + by rewrite !loads_snoc.
Qed.

(** The answer of [FileSource.needs_refresh] on an existing file. *)
Lemma FileSource_needs_refresh_eq (s : Src) w f :
  class s = FileSource ->
  fs w !! path (url s) = Some f ->
  fst (fst (needs_refresh s w))
  = Return (negb (py_int (st_mtime f) <=? last_refresh s)).
Proof.
  intros Hc Hf. run. rewrite Hc. run. rewrite Hf. run.
  by destruct (_ <=? _).
Qed.

Lemma FileSource_load_ok (s : Src) w f c :
  class s = FileSource ->
  fs w !! path (url s) = Some f ->
  parse_file_source (file_data f) = inr c ->
  exists w',
    load parse_file_source s w
    = (Return tt, installed c (current_etag s) s w, w').
Proof.
  intros Hc Hf Hp. run. rewrite Hc. run. rewrite Hf. run. rewrite Hf.
  rewrite (populate_ok _ c) by done. eexists. reflexivity.
Qed.

Lemma S3FileSource_load_ok (s : Src) w bk k c :
  class s = S3FileSource ->
  s3 w !! netloc (url s) = Some bk ->
  bk !! key_name s = Some k ->
  parse_file_source (key_data k) = inr c ->
  exists w',
    load parse_file_source s w
    = (Return tt, installed c (Some (etag k)) s w, w').
Proof.
  intros Hc Hb Hk Hp. run. rewrite Hc. run. rewrite Hb. run. rewrite Hk.
  rewrite (populate_ok _ c) by done. eauto.
Qed.

Lemma S3FileSource_load_parse_error (s : Src) w bk k e :
  class s = S3FileSource ->
  s3 w !! netloc (url s) = Some bk ->
  bk !! key_name s = Some k ->
  parse_file_source (key_data k) = inl e ->
  exists msg w',
    load parse_file_source s w = (Raise (ParseError msg), s, w').
Proof.
  intros Hc Hb Hk Hp. run. rewrite Hc. run. rewrite Hb. run. rewrite Hk.
  rewrite (populate_fail _ e) by done. eauto.
Qed.

(** [installed] reads the clock and the reading count of the world only. *)
Lemma installed_world c et (s : Src) w1 w2 :
  clock w1 = clock w2 -> ticks w1 = ticks w2 ->
  installed c et s w1 = installed c et s w2.
Proof. intros Hc Ht. unfold installed, now_of. by rewrite Hc, Ht. Qed.

(** The probe of an open gate: it runs on the object with [last_check]
    set, gives the answer that [s] itself would give in [w], and leaves a
    world with the same clock, reading count, files and buckets. *)
Lemma refresh_open_probe (s : Src) w :
  exists r1 w1,
    needs_refresh (set_last_check (now_of w) s) (tick w)
    = (r1, set_last_check (now_of w) s, w1)
    /\ r1 = fst (fst (needs_refresh s w))
    /\ clock w1 = clock w /\ ticks w1 = S (ticks w)
    /\ fs w1 = fs w /\ s3 w1 = s3 w.
Proof.
  destruct (needs_refresh (set_last_check _ s) (tick w))
    as [[r1 s1] w1] eqn:Hn.
  pose proof (needs_refresh_last_check s (tick w) (now_of w)) as Hr.
  rewrite Hn in Hr. simpl in Hr.
  apply needs_refresh_inv in Hn as (-> & Hck & Htk & Hfs & Hs3 & _).
  exists r1, w1. split_and!; try done.
  rewrite Hr. clear. run. destruct (class s); run; [done| |].
  - destruct (fs w !! path (url s)); run; [|done]. by destruct (_ <=? _).
  - destruct (s3 w !! netloc (url s)) as [bk|]; run; [|done].
    destruct (bk !! key_name s); [|done]. by destruct (bool_decide _).
Qed.

(** X1: [refresh] answers [True] exactly when it ran [load] and [load]
    returned.  With [True], one [load] is logged and the object holds the
    collection that [parse_file_source] gives on the bytes of the file (or
    of the key) present in the world, with its index, both time stamps
    and, for an [S3FileSource], the etag of that key; with [False], no
    [load] is logged and only [last_check] may differ. *)
Theorem refresh_true_iff_loaded (s : Src) (w : World) (b : bool) (s' : Src)
    (w' : World) :
  refresh parse_file_source s w = (Return b, s', w') ->
  loads (log w') = (loads (log w) + if b then 1 else 0)%nat
  /\ if b
     then exists c et,
         s' = installed c et (set_last_check (now_of w) s) (tick w)
         /\ chunks s' = Some c
         /\ chunk_index s' = Some (dom (adds c), dom (subs c))
         /\ match class s with
            | BaseSource => False
            | FileSource =>
                et = current_etag s
                /\ exists f, fs w !! path (url s) = Some f
                             /\ parse_file_source (file_data f) = inr c
            | S3FileSource =>
                exists bk k, s3 w !! netloc (url s) = Some bk
                             /\ bk !! key_name s = Some k
                             /\ parse_file_source (key_data k) = inr c
                             /\ et = Some (etag k)
            end
     else s' = set_last_check (last_check s') s.
Proof.
  intros H. rewrite refresh_unfold in H.
  destruct (Z.geb_spec (now_of w - interval s) (last_check s)) as [Hg|Hg].
  2:{ injection H as <- <- <-. simpl. split; [lia|by destruct s]. }
  pose proof (needs_refresh_loads (set_last_check (now_of w) s) (tick w))
    as Hnl.
  destruct (refresh_open_probe s w)
    as (r1 & w1 & Hn & _ & Hck & Htk & Hfs & Hs3).
  rewrite Hn in *. simpl in Hnl.
  destruct r1 as [[|]|e]; [| |done].
  - pose proof (load_loads (set_last_check (now_of w) s) w1) as Hll.
    destruct (load _ _ _) as [[[u|e] s2] w2] eqn:Hld; [|done].
    injection H as <- <- <-. simpl in Hll. split; [lia|].
    apply load_inv in Hld as (_ & _ & _ & _ & _ & c & et & -> & Hcl).
    simpl in Hcl. rewrite Hfs, Hs3 in Hcl.
    exists c, et. split_and!; try done.
    by apply installed_world.
  - injection H as <- <- <-. simpl in *. split; [lia|done].
Qed.

(** X2: a [FileSource] whose gate is open and whose file exists: when the
    truncated modification time is not after [last_refresh], [refresh]
    answers [False] and only sets [last_check]; when it is after, [refresh]
    answers [True] with the newly parsed collection installed if the bytes
    parse, and raises [ParseError] with only [last_check] set (the former
    collection is kept) if they do not. *)
Theorem FileSource_refresh_by_mtime (s : Src) (w : World) (f : File) :
  class s = FileSource ->
  last_check s <= now_of w - interval s ->
  fs w !! path (url s) = Some f ->
  let r := refresh parse_file_source s w in
  (py_int (st_mtime f) <= last_refresh s ->
     fst (fst r) = Return false
     /\ snd (fst r) = set_last_check (now_of w) s)
  /\ (last_refresh s < py_int (st_mtime f) ->
      forall c, parse_file_source (file_data f) = inr c ->
        fst (fst r) = Return true
        /\ snd (fst r)
           = installed c (current_etag s) (set_last_check (now_of w) s)
               (tick w))
  /\ (last_refresh s < py_int (st_mtime f) ->
      forall e, parse_file_source (file_data f) = inl e ->
        (exists msg, fst (fst r) = Raise (ParseError msg))
        /\ snd (fst r) = set_last_check (now_of w) s).
Proof.
  intros Hc Hg Hf r. subst r. rewrite refresh_unfold.
  destruct (Z.geb_spec (now_of w - interval s) (last_check s)); [|lia].
  destruct (refresh_open_probe s w)
    as (r1 & w1 & -> & -> & Hck & Htk & Hfs & Hs3).
  rewrite (FileSource_needs_refresh_eq s w f) by done.
  split_and!.
  - intros Hm. destruct (Z.leb_spec (py_int (st_mtime f)) (last_refresh s));
      [done|lia].
  - intros Hm c Hp.
    destruct (Z.leb_spec (py_int (st_mtime f)) (last_refresh s)); [lia|].
    simpl.
    destruct (FileSource_load_ok (set_last_check (now_of w) s) w1 f c)
      as [w2 ->]; [done|by rewrite Hfs|done|].
    simpl. split; [done|]. by apply installed_world.
  - intros Hm e Hp.
    destruct (Z.leb_spec (py_int (st_mtime f)) (last_refresh s)); [lia|].
    simpl.
    destruct (FileSource_load_parse_error (set_last_check (now_of w) s)
                w1 f e) as (msg & w2 & ->); [done|by rewrite Hfs|done|].
    simpl. eauto.
Qed.

(** X3: an [S3FileSource] whose gate is open and whose key exists: when the
    key's etag is [current_etag], [refresh] answers [False] and only sets
    [last_check]; when it differs, [refresh] answers [True] with the newly
    parsed collection installed and the etag recorded if the contents
    parse, and raises [ParseError] with only [last_check] set (collection
    and [current_etag] kept) if they do not. *)
Theorem S3FileSource_refresh_by_etag (s : Src) (w : World)
    (bk : gmap string S3Key) (k : S3Key) :
  class s = S3FileSource ->
  last_check s <= now_of w - interval s ->
  s3 w !! netloc (url s) = Some bk ->
  bk !! key_name s = Some k ->
  let r := refresh parse_file_source s w in
  (Some (etag k) = current_etag s ->
     fst (fst r) = Return false
     /\ snd (fst r) = set_last_check (now_of w) s)
  /\ (Some (etag k) <> current_etag s ->
      forall c, parse_file_source (key_data k) = inr c ->
        fst (fst r) = Return true
        /\ snd (fst r)
           = installed c (Some (etag k)) (set_last_check (now_of w) s)
               (tick w))
  /\ (Some (etag k) <> current_etag s ->
      forall e, parse_file_source (key_data k) = inl e ->
        (exists msg, fst (fst r) = Raise (ParseError msg))
        /\ snd (fst r) = set_last_check (now_of w) s).
Proof.
  intros Hc Hg Hb Hk r. subst r. rewrite refresh_unfold.
  destruct (Z.geb_spec (now_of w - interval s) (last_check s)); [|lia].
  destruct (refresh_open_probe s w)
    as (r1 & w1 & -> & -> & Hck & Htk & Hfs & Hs3).
  rewrite (S3FileSource_needs_refresh_eq s w bk k) by done.
  split_and!.
  - intros He. by rewrite bool_decide_true.
  - intros He c Hp. rewrite bool_decide_false by done. simpl.
    destruct (S3FileSource_load_ok (set_last_check (now_of w) s) w1 bk k c)
      as [w2 ->]; [done|by rewrite Hs3|done|done|].
    simpl. split; [done|]. by apply installed_world.
  - intros He e Hp. rewrite bool_decide_false by done. simpl.
    destruct (S3FileSource_load_parse_error (set_last_check (now_of w) s)
                w1 bk k e) as (msg & w2 & ->);
      [done|by rewrite Hs3|done|done|].
    simpl. eauto.
Qed.

(** When the probe raises, and what it raises. *)
Lemma needs_refresh_raises (s : Src) w e :
  fst (fst (needs_refresh s w)) = Raise e ->
  (class s = FileSource /\ fs w !! path (url s) = None /\ e = OSError)
  \/ (class s = S3FileSource /\ s3 w !! netloc (url s) = None
      /\ e = S3ResponseError)
  \/ (class s = S3FileSource
      /\ (exists bk, s3 w !! netloc (url s) = Some bk
                     /\ bk !! key_name s = None)
      /\ e = AttributeError).
Proof.
  run. destruct (class s); run; [done| |].
  - destruct (fs w !! path (url s)); run.
    + by destruct (_ <=? _).
    + intros [= <-]. by left.
  - destruct (s3 w !! netloc (url s)) as [bk|]; run.
    + destruct (bk !! key_name s) eqn:Hk.
      * by destruct (bool_decide _).
      * intros [= <-]. right; right. eauto.
    + intros [= <-]. right; left. done.
Qed.

(** When the probe returns, the resource it looked at exists. *)
Lemma needs_refresh_returns (s : Src) w b :
  fst (fst (needs_refresh s w)) = Return b ->
  match class s with
  | BaseSource => b = false
  | FileSource => exists f, fs w !! path (url s) = Some f
  | S3FileSource =>
      exists bk k, s3 w !! netloc (url s) = Some bk
                   /\ bk !! key_name s = Some k
  end.
Proof.
  run. destruct (class s); run.
  - by intros [= <-].
  - destruct (fs w !! path (url s)); run; [eauto|done].
  - destruct (s3 w !! netloc (url s)) as [bk|]; run; [|done].
    destruct (bk !! key_name s) eqn:Hk; [eauto|done].
Qed.

(** When [load] raises [NoDataError], the file or the key is absent. *)
Lemma load_no_data_absent (s : Src) w msg :
  fst (fst (load parse_file_source s w)) = Raise (NoDataError msg) ->
  match class s with
  | BaseSource => False
  | FileSource => fs w !! path (url s) = None
  | S3FileSource =>
      exists bk, s3 w !! netloc (url s) = Some bk /\ bk !! key_name s = None
  end.
Proof.
  run. destruct (class s); run; [done| |].
  - destruct (fs w !! path (url s)) as [f|] eqn:Hf; run; [|done].
    rewrite Hf.
    destruct (parse_file_source (file_data f)) as [e|c] eqn:Hp.
    + by rewrite (populate_fail _ e).
    + by rewrite (populate_ok _ c).
  - destruct (s3 w !! netloc (url s)) as [bk|]; run; [|done].
    destruct (bk !! key_name s) as [k|] eqn:Hk; [|eauto].
    destruct (parse_file_source (key_data k)) as [e|c] eqn:Hp.
    + by rewrite (populate_fail _ e).
    + by rewrite (populate_ok _ c).
Qed.

(** With the gate open, an exception of the probe is the outcome of
    [refresh]; [load] is not called. *)
Lemma refresh_probe_raises (s : Src) w e :
  last_check s <= now_of w - interval s ->
  fst (fst (needs_refresh s w)) = Raise e ->
  exists w',
    refresh parse_file_source s w
    = (Raise e, set_last_check (now_of w) s, w')
    /\ loads (log w') = loads (log w).
Proof.
  intros Hg He. rewrite refresh_unfold.
  destruct (Z.geb_spec (now_of w - interval s) (last_check s)); [|lia].
  pose proof (needs_refresh_loads (set_last_check (now_of w) s) (tick w))
    as Hl.
  destruct (refresh_open_probe s w) as (r1 & w1 & Hn & Hr & _).
  rewrite Hn in *. rewrite He in Hr. subst r1. simpl in Hl. eauto.
Qed.

(** X4: through [refresh], a resource that is absent is met by the probe,
    not by [load]: with the gate open, a missing file raises the [OSError]
    of [os.stat], a missing bucket the error of [get_bucket], a missing key
    the [AttributeError] of [None.etag]; [load] is not called, and only
    [last_check] is set. *)
Theorem refresh_missing_resource (s : Src) (w : World) (e : exn) :
  last_check s <= now_of w - interval s ->
  (class s = FileSource /\ fs w !! path (url s) = None /\ e = OSError)
  \/ (class s = S3FileSource /\ s3 w !! netloc (url s) = None
      /\ e = S3ResponseError)
  \/ (class s = S3FileSource
      /\ (exists bk, s3 w !! netloc (url s) = Some bk
                     /\ bk !! key_name s = None)
      /\ e = AttributeError) ->
  exists w',
    refresh parse_file_source s w
    = (Raise e, set_last_check (now_of w) s, w')
    /\ loads (log w') = loads (log w).
Proof.
  intros Hg H. apply refresh_probe_raises; [done|].
  destruct H as [(Hc & Hf & ->)|[(Hc & Hb & ->)|(Hc & (bk & Hb & Hk) & ->)]].
  - clear -Hc Hf. run. rewrite Hc. run. by rewrite Hf.
  - clear -Hc Hb. run. rewrite Hc. run. by rewrite Hb.
  - clear -Hc Hb Hk. run. rewrite Hc. run. rewrite Hb. run. by rewrite Hk.
Qed.

(** X5: [refresh] never raises [NoDataError] (files and buckets being the
    same for the probe and for the load that follows it): the probe has
    already raised on an absent file or key, so the [load] it guards finds
    the resource. *)
Theorem refresh_never_raises_NoDataError (s : Src) (w : World) (e : exn)
    (s' : Src) (w' : World) :
  refresh parse_file_source s w = (Raise e, s', w') ->
  forall msg, e <> NoDataError msg.
Proof.
  intros H msg ->. rewrite refresh_unfold in H.
  destruct (_ >=? _); [|done].
  destruct (refresh_open_probe s w)
    as (r1 & w1 & Hn & Hr & _ & _ & Hfs & Hs3).
  rewrite Hn in H. destruct r1 as [[|]|e].
  - symmetry in Hr. apply needs_refresh_returns in Hr.
    destruct (load _ _ _) as [[[u|e] s2] w2] eqn:Hl; [done|].
    injection H as -> <- <-.
    pose proof (load_no_data_absent (set_last_check (now_of w) s) w1 msg)
      as Habs.
    rewrite Hl in Habs. specialize (Habs eq_refl). simpl in Habs.
    rewrite Hfs, Hs3 in Habs.
    destruct (class s); [done| |].
    + destruct Hr as [f Hf]. congruence.
    + destruct Hr as (bk & k & Hb & Hk), Habs as (bk' & Hb' & Hk').
      congruence.
  - done.
  - injection H as -> _ _. symmetry in Hr.
    apply needs_refresh_raises in Hr
      as [(_ & _ & [=])|[(_ & _ & [=])|(_ & _ & [=])]].
Qed.

(** X6: after a [refresh] that raised, a [fetch] less than [interval]
    later (by the clock readings) is answered from the collection held
    before the failure: all the requested records, if their numbers are
    keys of it; the backend is not asked again. *)
Theorem fetch_after_failed_refresh (adds_req subs_req : list Z) (s : Src)
    (w : World) (e : exn) (s' : Src) (w' w2 : World) (c : ChunkList) :
  refresh parse_file_source s w = (Raise e, s', w') ->
  chunks s = Some c ->
  (forall n, n ∈ adds_req -> is_Some (adds c !! n)) ->
  (forall n, n ∈ subs_req -> is_Some (subs c !! n)) ->
  now_of w2 - now_of w < interval s ->
  exists a b,
    fetch parse_file_source adds_req subs_req s' w2
    = (Return (a, b), s', tick w2)
    /\ Forall2 (fun n x => adds c !! n = Some x) adds_req a
    /\ Forall2 (fun n x => subs c !! n = Some x) subs_req b.
Proof.
  intros H Hc Ha Hb Hclose.
  apply refresh_inv in H as (_ & _ & _ & _ & _ & Hcases).
  destruct Hcases as [(_ & [=] & _)|(_ & _ & [[_ ->]|([=] & _)])].
  assert (Hr : refresh parse_file_source (set_last_check (now_of w) s) w2
               = (Return false, set_last_check (now_of w) s, tick w2)).
  { rewrite refresh_unfold. simpl.
    destruct (Z.geb_spec (now_of w2 - interval s) (now_of w)); [lia|done]. }
  by destruct (fetch_after_refresh adds_req subs_req _ _ _ _ _ c Hr Hc)
    as [_ Hall]; apply Hall.
Qed.

Lemma same_configuration_load (s : Src) w :
  same_configuration s (fst (after (load parse_file_source s w))).
Proof.
  destruct (load _ _ _) as [[r s'] w'] eqn:Hl.
  apply load_inv in Hl as (_ & _ & _ & _ & H). simpl.
  destruct r as [u|e].
  - by destruct H as (_ & c & et & -> & _).
  - by destruct H as [-> _].
Qed.

Lemma same_configuration_refresh (s : Src) w :
  same_configuration s (fst (after (refresh parse_file_source s w))).
Proof.
  destruct (refresh _ _ _) as [[r s'] w'] eqn:Hr.
  apply refresh_inv in Hr as (_ & _ & _ & _ & _ & H). simpl.
  destruct H as [(_ & _ & -> & _)|(_ & _ & [[_ ->]|(_ & c & et & ->)])];
    done.
Qed.

(** X7: no call ([refresh], [load], [fetch], [list_chunks],
    [find_prefix]), whether it returns or raises, changes the class of the
    object, its [source_url], [url], [interval] or [key_name]. *)
Theorem calls_keep_configuration (c : call) (s : Src) (w : World) :
  same_configuration s
    (fst (run_call parse_file_source ChunkList_find_prefix c s w)).
Proof.
  destruct c; unfold run_call.
  - apply same_configuration_refresh.
  - apply same_configuration_load.
  - rewrite fetch_frame. apply same_configuration_refresh.
  - rewrite list_chunks_frame. apply same_configuration_refresh.
  - by rewrite find_prefix_eq.
Qed.

Lemma collect_unloaded (field : @ChunkList Chunk -> gmap Z Chunk) n rest
    acc (s : Src) w :
  chunks s = None ->
  collect field (n :: rest) acc s w = (Raise AttributeError, s, w).
Proof.
  intros Hc. simpl. unfold bind at 1, chunks_item, bind, self.
  by rewrite Hc.
Qed.

(** [fetch] on an object that holds no collection once refreshed. *)
Lemma fetch_unloaded adds_req subs_req (s : Src) w r s1 w1 :
  refresh parse_file_source s w = (Return r, s1, w1) ->
  chunks s1 = None ->
  fst (fst (fetch parse_file_source adds_req subs_req s w))
  = match adds_req, subs_req with
    | [], [] => Return ([], [])
    | _, _ => Raise AttributeError
    end.
Proof.
  intros Hr Hc. unfold fetch, bind at 1. rewrite Hr. unfold bind at 1.
  destruct adds_req as [|n rest].
  - simpl. unfold ret at 1. unfold bind at 1.
    destruct subs_req as [|m rest']; [done|].
    by rewrite collect_unloaded.
  - by rewrite collect_unloaded.
Qed.

Lemma base_unloaded_step (c : call) (s : Src) w :
  class s = BaseSource -> chunks s = None -> chunk_index s = None ->
  let s' := fst (run_call parse_file_source ChunkList_find_prefix c s w) in
  chunks s' = None /\ chunk_index s' = None
  /\ last_refresh s' = last_refresh s.
Proof.
  intros Hc Hch Hix.
  assert (Hrefresh : forall r s' w',
             refresh parse_file_source s w = (r, s', w') ->
             chunks s' = None /\ chunk_index s' = None
             /\ last_refresh s' = last_refresh s).
  { intros r s' w' H.
    apply refresh_fresh_step in H as [-> _]; [done|by left]. }
  destruct c; unfold run_call.
  - destruct (refresh _ _ _) as [[r s'] w'] eqn:H. by eapply Hrefresh.
  - destruct (load _ _ _) as [[r s'] w'] eqn:H.
    apply load_inv in H as (_ & _ & _ & _ & H). simpl.
    destruct r as [u|e].
    + destruct H as (_ & ? & ? & _ & H). by rewrite Hc in H.
    + by destruct H as [-> _].
  - rewrite fetch_frame.
    destruct (refresh _ _ _) as [[r s'] w'] eqn:H. by eapply Hrefresh.
  - rewrite list_chunks_frame.
    destruct (refresh _ _ _) as [[r s'] w'] eqn:H. by eapply Hrefresh.
  - by rewrite find_prefix_eq.
Qed.

Lemma base_reachable_unloaded (s : Src) :
  reachable urlparse parse_file_source ChunkList_find_prefix s ->
  class s = BaseSource ->
  chunks s = None /\ chunk_index s = None /\ last_refresh s = 0.
Proof.
  induction 1 as [cls u i _|u i s Hi|c s w _ IH]; intros Hc.
  - done.
  - unfold S3FileSource_init in Hi.
    destruct (S3FileSource_key_name _); [|done]. by injection Hi as <-.
  - assert (Hcs : class s = BaseSource).
    { rewrite <- Hc. symmetry. destruct c; unfold run_call.
      - apply same_configuration_refresh.
      - apply same_configuration_load.
      - rewrite fetch_frame. apply same_configuration_refresh.
      - rewrite list_chunks_frame. apply same_configuration_refresh.
      - by rewrite find_prefix_eq. }
    destruct (IH Hcs) as (H1 & H2 & H3).
    destruct (base_unloaded_step c s w Hcs H1 H2) as (? & ? & ?).
    split_and!; congruence.
Qed.

(** X8: an object of the base class [Source] never holds data, whatever
    is called on it: [chunks] and [chunk_index] stay [None] and
    [last_refresh] stays 0.  So [refresh] answers [False], [load] and
    [list_chunks] raise [TypeError], [find_prefix] raises
    [AttributeError], and [fetch] raises [AttributeError] unless nothing
    is requested, in which case it returns two empty lists. *)
Theorem BaseSource_never_holds_data (s : Src) (w : World) :
  reachable urlparse parse_file_source ChunkList_find_prefix s ->
  class s = BaseSource ->
  (chunks s = None /\ chunk_index s = None /\ last_refresh s = 0)
  /\ fst (fst (refresh parse_file_source s w)) = Return false
  /\ fst (fst (load parse_file_source s w)) = Raise TypeError
  /\ fst (fst (list_chunks parse_file_source s w)) = Raise TypeError
  /\ (forall p,
        fst (fst (find_prefix ChunkList_find_prefix p s w))
        = Raise AttributeError)
  /\ (forall adds_req subs_req,
        fst (fst (fetch parse_file_source adds_req subs_req s w))
        = match adds_req, subs_req with
          | [], [] => Return ([], [])
          | _, _ => Raise AttributeError
          end).
Proof.
  intros Hreach Hc.
  destruct (base_reachable_unloaded s Hreach Hc) as (Hch & Hix & Hlr).
  assert (Hr : exists s1 w1,
             refresh parse_file_source s w = (Return false, s1, w1)
             /\ chunks s1 = None /\ chunk_index s1 = None).
  { rewrite refresh_unfold. destruct (_ >=? _); [|eauto].
    assert (Hn : forall s0 : Src, class s0 = BaseSource -> forall w0,
               needs_refresh s0 w0
               = (Return false, s0, emit EvNeedsRefresh w0)).
    { intros s0 H0 w0. run. by rewrite H0. }
    rewrite Hn by done. eauto. }
  destruct Hr as (s1 & w1 & Hr & Hch1 & Hix1).
  split_and!; try done.
  - by rewrite Hr.
  - run. by rewrite Hc.
  - unfold list_chunks, bind at 1. rewrite Hr. unfold bind, self.
    by rewrite Hix1.
  - intros p. by rewrite find_prefix_eq, Hch.
  - intros a b. by apply (fetch_unloaded a b s w false s1 w1).
Qed.

(** X9: on an object whose index matches its collection (as in every
    reachable state), the two sets that [list_chunks] returns are exactly
    the key sets of the collection then held; and a [fetch] of any numbers
    taken from those sets, made while the gate is still closed, returns
    the record of each one. *)
Theorem list_chunks_then_fetch (s : Src) (w : World) (A B : gset Z)
    (s' : Src) (w' : World) :
  consistent s ->
  list_chunks parse_file_source s w = (Return (A, B), s', w') ->
  exists c,
    chunks s' = Some c
    /\ (forall n, n ∈ A <-> is_Some (adds c !! n))
    /\ (forall n, n ∈ B <-> is_Some (subs c !! n))
    /\ forall adds_req subs_req w2,
        (forall n, n ∈ adds_req -> n ∈ A) ->
        (forall n, n ∈ subs_req -> n ∈ B) ->
        now_of w2 - interval s' < last_check s' ->
        exists a b,
          fetch parse_file_source adds_req subs_req s' w2
          = (Return (a, b), s', tick w2)
          /\ Forall2 (fun n x => adds c !! n = Some x) adds_req a
          /\ Forall2 (fun n x => subs c !! n = Some x) subs_req b.
Proof.
  intros Hs H.
  pose proof (consistent_refresh s w Hs) as Hcons.
  unfold list_chunks, bind at 1 in H.
  destruct (refresh _ _ _) as [[[r|e] s1] w1]; [|done].
  unfold bind, self in H. simpl in Hcons. unfold consistent in Hcons.
  destruct (chunk_index s1) as [[A' B']|] eqn:Hix; [|done].
  injection H as <- <- <- <-.
  destruct (chunks s1) as [c|] eqn:Hc; [|done].
  injection Hcons as -> ->.
  exists c. split_and!; try done; try (intros n; apply elem_of_dom).
  intros adds_req subs_req w2 HA HB Hgate.
  assert (Hr : refresh parse_file_source s1 w2 = (Return false, s1, tick w2)).
  { rewrite refresh_unfold.
    destruct (Z.geb_spec (now_of w2 - interval s1) (last_check s1));
      [lia|done]. }
  destruct (fetch_after_refresh adds_req subs_req _ _ _ _ _ c Hr Hc)
    as [_ Hall].
  apply Hall; intros n Hn; apply elem_of_dom; auto.
Qed.

(** X10: on a clock that does not run backwards and with an interval that
    is not negative, [last_check] never goes back in a [refresh], a
    [fetch] or a [list_chunks], whether they return or raise. *)
Theorem last_check_never_goes_back (c : call) (s : Src) (w : World) :
  clock_monotone w ->
  0 <= interval s ->
  c <> CallLoad ->
  last_check s
  <= last_check (fst (run_call parse_file_source ChunkList_find_prefix
                        c s w)).
Proof.
  intros Hmono Hi Hc.
  assert (Hrefresh :
            last_check s
            <= last_check (fst (after (refresh parse_file_source s w)))).
  { destruct (refresh _ _ _) as [[r s'] w'] eqn:Hr.
    apply refresh_inv in Hr as (_ & _ & _ & _ & _ & H). simpl.
    destruct H as [(_ & _ & -> & _)|(Hg & _ & [[_ ->]|(_ & c' & et & ->)])];
      simpl; [lia|lia|].
    transitivity (now_of w); [lia|].
    unfold now_of. apply py_int_mono, Hmono. simpl. lia. }
  destruct c; unfold run_call; try done.
  - by rewrite fetch_frame.
  - by rewrite list_chunks_frame.
  - rewrite find_prefix_eq. simpl. lia.
Qed.

(** With the gate open, a stale probe and a [load] that returns make a
    [refresh] that answers [True], with one [load] logged. *)
Lemma refresh_stale_loaded (s : Src) w s2 :
  last_check s <= now_of w - interval s ->
  fst (fst (needs_refresh s w)) = Return true ->
  (forall w1, clock w1 = clock w -> ticks w1 = S (ticks w) ->
              fs w1 = fs w -> s3 w1 = s3 w ->
              exists w2,
                load parse_file_source (set_last_check (now_of w) s) w1
                = (Return tt, s2 w1, w2)) ->
  exists w1 w',
    refresh parse_file_source s w = (Return true, s2 w1, w')
    /\ clock w1 = clock w /\ ticks w1 = S (ticks w)
    /\ loads (log w') = S (loads (log w)).
Proof.
  intros Hg Hn Hload. rewrite refresh_unfold.
  destruct (Z.geb_spec (now_of w - interval s) (last_check s)); [|lia].
  pose proof (needs_refresh_loads (set_last_check (now_of w) s) (tick w))
    as Hl.
  destruct (refresh_open_probe s w)
    as (r1 & w1 & Hp & Hr & Hck & Htk & Hfs & Hs3).
  rewrite Hp in *. rewrite Hn in Hr. subst r1. simpl in Hl.
  pose proof (load_loads (set_last_check (now_of w) s) w1) as Hll.
  destruct (Hload w1 Hck Htk Hfs Hs3) as [w2 Hld].
  rewrite Hld in *. simpl in Hll. exists w1, w2.
  split_and!; try done. lia.
Qed.

(** X13: a [FileSource] just constructed, asked for chunks when at least
    [interval] seconds have passed since the epoch and its file exists
    with a modification time of at least one second and bytes that parse:
    the first [fetch] loads the file (one [load]) and returns the record
    of every requested number, provided all are keys of the parsed
    collection. *)
Theorem FileSource_first_fetch (u : string) (i : Z) (w : World) (f : File)
    (c : ChunkList) (adds_req subs_req : list Z) :
  i <= now_of w ->
  fs w !! path (urlparse u) = Some f ->
  0 < py_int (st_mtime f) ->
  parse_file_source (file_data f) = inr c ->
  (forall n, n ∈ adds_req -> is_Some (adds c !! n)) ->
  (forall n, n ∈ subs_req -> is_Some (subs c !! n)) ->
  exists a b s' w',
    fetch parse_file_source adds_req subs_req
      (Source_init urlparse FileSource u i) w
    = (Return (a, b), s', w')
    /\ chunks s' = Some c
    /\ Forall2 (fun n x => adds c !! n = Some x) adds_req a
    /\ Forall2 (fun n x => subs c !! n = Some x) subs_req b
    /\ loads (log w') = S (loads (log w)).
Proof.
  intros Hi Hf Hm Hp Ha Hb.
  set (s := Source_init urlparse FileSource u i).
  destruct (refresh_stale_loaded s w
              (fun w1 => installed c None (set_last_check (now_of w) s) w1))
    as (w1 & w' & Hr & _ & _ & Hl).
  - simpl. lia.
  - rewrite (FileSource_needs_refresh_eq s w f) by done. simpl.
    destruct (Z.leb_spec (py_int (st_mtime f)) 0); [lia|done].
  - intros w1 _ _ Hfs _.
    apply (FileSource_load_ok (set_last_check (now_of w) s) w1 f c);
      [done|by rewrite Hfs|done].
  - destruct (fetch_after_refresh adds_req subs_req s w true _ w' c Hr)
      as [_ Hall]; [done|].
    destruct (Hall Ha Hb) as (a & b & Hfetch & HFa & HFb).
    exists a, b. eexists _, w'. split_and!; try done.
Qed.

(** X14: an [S3FileSource] just constructed, asked for chunks when at
    least [interval] seconds have passed since the epoch and the key
    exists under the key name computed by the constructor, with contents
    that parse: the first [fetch] loads the key whatever its etag,
    records that etag, and returns the record of every requested number,
    provided all are keys of the parsed collection. *)
Theorem S3FileSource_first_fetch (u : string) (i : Z) (s : Src) (w : World)
    (bk : gmap string S3Key) (k : S3Key) (c : ChunkList)
    (adds_req subs_req : list Z) :
  S3FileSource_init urlparse u i = Return s ->
  i <= now_of w ->
  s3 w !! netloc (urlparse u) = Some bk ->
  bk !! key_name s = Some k ->
  parse_file_source (key_data k) = inr c ->
  (forall n, n ∈ adds_req -> is_Some (adds c !! n)) ->
  (forall n, n ∈ subs_req -> is_Some (subs c !! n)) ->
  exists a b s' w',
    fetch parse_file_source adds_req subs_req s w = (Return (a, b), s', w')
    /\ chunks s' = Some c
    /\ current_etag s' = Some (etag k)
    /\ Forall2 (fun n x => adds c !! n = Some x) adds_req a
    /\ Forall2 (fun n x => subs c !! n = Some x) subs_req b
    /\ loads (log w') = S (loads (log w)).
Proof.
  intros Hinit Hi Hbk Hk Hp Ha Hb.
  assert (Hs : class s = S3FileSource /\ url s = urlparse u
               /\ interval s = i /\ last_check s = 0
               /\ current_etag s = None).
  { unfold S3FileSource_init in Hinit.
    destruct (S3FileSource_key_name _); [|done]. by injection Hinit as <-. }
  destruct Hs as (Hc & Hu & Hint & Hlc & Het).
  destruct (refresh_stale_loaded s w
              (fun w1 => installed c (Some (etag k))
                           (set_last_check (now_of w) s) w1))
    as (w1 & w' & Hr & _ & _ & Hl).
  - rewrite Hint, Hlc. lia.
  - rewrite (S3FileSource_needs_refresh_eq s w bk k);
      [|done|by rewrite Hu|done].
    rewrite Het. done.
  - intros w1 _ _ _ Hs3.
    apply (S3FileSource_load_ok (set_last_check (now_of w) s) w1 bk k c);
      [done|by simpl; rewrite Hs3, Hu|done|done].
  - destruct (fetch_after_refresh adds_req subs_req s w true _ w' c Hr)
      as [_ Hall]; [done|].
    destruct (Hall Ha Hb) as (a & b & Hfetch & HFa & HFb).
    exists a, b. eexists _, w'. split_and!; try done.
Qed.

(** X15: one [refresh], [fetch] or [list_chunks] makes at most one probe
    and at most one [load], and never a [load] without a probe before it:
    the counts of both in the trace grow by 0 or 1, the loads by no more
    than the probes. *)
Theorem calls_probe_and_load_at_most_once (c : call) (s : Src)
    (w : World) :
  c <> CallLoad ->
  let w' := snd (run_call parse_file_source ChunkList_find_prefix c s w) in
  (probes (log w) <= probes (log w') <= S (probes (log w)))%nat
  /\ (loads (log w) <= loads (log w') <= S (loads (log w)))%nat
  /\ (loads (log w') - loads (log w)
      <= probes (log w') - probes (log w))%nat.
Proof.
  intros Hc.
  assert (Hrefresh :
            let w' := snd (after (refresh parse_file_source s w)) in
            (probes (log w) <= probes (log w') <= S (probes (log w)))%nat
            /\ (loads (log w) <= loads (log w') <= S (loads (log w)))%nat
            /\ (loads (log w') - loads (log w)
                <= probes (log w') - probes (log w))%nat).
  { pose proof (refresh_unfold s w) as Hu.
    destruct (refresh _ _ _) as [[r s'] w'] eqn:Hr. simpl.
    apply refresh_inv in Hr as (_ & _ & _ & _ & _ & H).
    destruct H as [(Hg & _ & _ & ->)|(Hg & Hp & _)]; simpl; [lia|].
    destruct (Z.geb_spec (now_of w - interval s) (last_check s)); [|lia].
    pose proof (needs_refresh_loads (set_last_check (now_of w) s) (tick w))
      as Hnl.
    destruct (needs_refresh _ _) as [[[[|]|e] s1] w1]; simpl in Hnl.
    - pose proof (load_loads s1 w1) as Hll.
      destruct (load _ _ _) as [[[u|e] s2] w2]; simpl in Hll;
        injection Hu as _ _ ->; lia.
    - injection Hu as _ _ ->. lia.
    - injection Hu as _ _ ->. lia. }
  destruct c; unfold run_call; try done.
  - by rewrite fetch_frame.
  - by rewrite list_chunks_frame.
  - rewrite find_prefix_eq. simpl. lia.
Qed.

End Properties.

(** ** The key name of an [S3FileSource] *)

(** C1: the loop of [S3FileSource.__init__] pops the head of the split path
    only when that head is exactly [/], which happens for a path of one
    segment ([/name] gives [name]); for [/a/b], [//a/b] and
    [//lists//mylist] the head is [/a], [//a] and [//lists], nothing is
    popped, and the key keeps its leading separators. *)
Theorem S3FileSource_key_name_keeps_leading_slashes :
  S3FileSource_key_name "/a/b" = Return "/a/b"%string
  /\ S3FileSource_key_name "//a/b" = Return "//a/b"%string
  /\ S3FileSource_key_name "//lists//mylist" = Return "//lists/mylist"%string
  /\ S3FileSource_key_name "/name" = Return "name"%string
  /\ (exists s : @Source unit,
        S3FileSource_init Example.urlparse "s3+file://bucket/a/b" 10
        = Return s
        /\ key_name s = "/a/b"%string).
Proof.
  split_and!; try reflexivity.
  eexists. split; reflexivity.
Qed.



Lemma substring_zero_length n s : String.substring n 0 s = EmptyString.
Proof.
  revert n. induction s as [|d rest IH]; intros [|n]; simpl; auto.
Qed.



Lemma split_no_slash s :
  has_slash s = false -> PyStr.split PyStr.slash s = [s].
Proof.
  induction s as [|c rest IH]; simpl; [done|].
  intros H. apply orb_false_iff in H as [Hc Hr].
  rewrite Hc, (IH Hr). done.
Qed.

Lemma rfind_from_no_slash s :
  forall i found,
    has_slash s = false -> PyStr.rfind_from PyStr.slash s i found = found.
Proof.
  induction s as [|c rest IH]; intros i found H; simpl; [done|].
  simpl in H. apply orb_false_iff in H as [Hc Hr].
  rewrite Hc. by apply IH.
Qed.

Lemma substring_full s : String.substring 0 (String.length s) s = s.
Proof. induction s as [|c rest IH]; simpl; [done|by rewrite IH]. Qed.

Lemma prefix_slash_no_slash s :
  has_slash s = false -> String.prefix "/" s = false.
Proof.
  intros H. destruct (String.prefix "/" s) eqn:E; [|done].
  apply String.prefix_correct in E. destruct s as [|c rest]; [done|].
  simpl in E, H. injection E as -> _. done.
Qed.

Lemma normpath_one_segment name :
  has_slash name = false ->
  name <> ""%string -> name <> "."%string -> name <> ".."%string ->
  posixpath.normpath (String "/" name) = String "/" name.
Proof.
  intros Hs H0 H1 H2.
  assert (Hp1 : PyStr.startswith "/" (String "/" name) = true).
  { unfold PyStr.startswith. apply String.prefix_correct. simpl.
    by rewrite substring_zero_length. }
  assert (Hp2 : PyStr.startswith "//" (String "/" name) = false).
  { unfold PyStr.startswith.
    destruct (String.prefix "//" (String "/" name)) eqn:E; [|done].
    apply String.prefix_correct in E. simpl in E.
    destruct name as [|c rest]; [done|].
    simpl in E, Hs. injection E as -> _. done. }
  assert (Hsplit : PyStr.split PyStr.slash (String "/" name)
                   = [""%string; name]).
  { simpl. by rewrite (split_no_slash name Hs). }
  assert (Hfold : fold_left (posixpath.normpath_step 1)
                    [""%string; name] [] = [name]).
  { simpl. unfold posixpath.normpath_step at 2. simpl.
    unfold posixpath.normpath_step.
    rewrite (bool_decide_false (name = ""%string)) by done.
    rewrite (bool_decide_false (name = "."%string)) by done.
    rewrite (bool_decide_false (name = ".."%string)) by done.
    done. }
  unfold posixpath.normpath.
  rewrite bool_decide_false by done.
  rewrite Hp1, Hp2, Hsplit. simpl andb. cbv iota.
  rewrite Hfold. simpl. done.
Qed.

Lemma split_one_segment name :
  has_slash name = false ->
  posixpath.split (String "/" name) = ("/"%string, name).
Proof.
  intros Hs. unfold posixpath.split, PyStr.rfind. simpl PyStr.rfind_from.
  rewrite (rfind_from_no_slash name _ _ Hs).
  unfold PyStr.slice_to, PyStr.slice_from. simpl.
  rewrite substring_zero_length. simpl.
  by rewrite Nat.sub_0_r, substring_full.
Qed.

(** X12: for a path of one segment, [/name] with no further separator in
    [name] and [name] not empty, [.] or [..], the loop of
    [S3FileSource.__init__] does eliminate the leading separator: the key
    is [name]. *)
Theorem S3FileSource_key_name_one_segment (name : string) :
  has_slash name = false ->
  name <> ""%string -> name <> "."%string -> name <> ".."%string ->
  S3FileSource_key_name (String "/" name) = Return name.
Proof.
  intros Hs H0 H1 H2. unfold S3FileSource_key_name.
  rewrite (normpath_one_segment name) by done.
  rewrite (split_one_segment name Hs). simpl.
  rewrite bool_decide_false; [done|].
  intros <-. discriminate Hs.
Qed.

(** ** The theorems at work on the example *)

Lemma clock_monotone_w0 : clock_monotone Example.w0.
Proof.
  intros i j Hij. simpl. unfold Example.clock.
  rewrite <- Zle_Qle. lia.
Defined.

Lemma refresh_interval_gate_witness :
  (now_of Example.w_early - last_check Example.file_source
   < interval Example.file_source
   /\ refresh Example.parse Example.file_source Example.w_early
      = (Return false, Example.file_source, tick Example.w_early))
  /\ probes (log (snd (refresh Example.parse Example.file_source
                         Example.w0))) = 1%nat
  /\ (probes (log (snd (refresh Example.parse Example.file_source_loaded
                          (set_backend ∅ ∅ Example.w0_loaded)))) <= 1)%nat.
Proof.
  assert (Hearly : now_of Example.w_early - last_check Example.file_source
                   < interval Example.file_source) by (vm_compute; reflexivity).
  split_and!.
  - exact Hearly.
  - exact (proj1 (proj1 (refresh_interval_gate Example.parse
                           Example.file_source Example.w_early) Hearly)).
  - refine (proj2 (proj1 (proj2 (refresh_interval_gate Example.parse
                                   Example.file_source Example.w0)) _)).
    vm_compute. intros H; discriminate H.
  - refine (proj2 (proj2 (refresh_interval_gate Example.parse
                            Example.file_source Example.w0))
              ∅ ∅ clock_monotone_w0 _).
    vm_compute. reflexivity.
Defined.

Lemma load_failure_keeps_state_witness :
  let r := load Example.parse Example.file_source Example.w_bare in
  (exists msg, fst (fst r) = Raise (NoDataError msg))
  /\ (chunks (snd (fst r)) = chunks Example.file_source
      /\ chunk_index (snd (fst r)) = chunk_index Example.file_source
      /\ last_check (snd (fst r)) = last_check Example.file_source
      /\ last_refresh (snd (fst r)) = last_refresh Example.file_source
      /\ current_etag (snd (fst r)) = current_etag Example.file_source
      /\ snd (fst r) = Example.file_source).
Proof.
  intros r. subst r. split; [eexists; vm_compute; reflexivity|].
  eapply (proj1 (load_failure_keeps_state Example.parse Example.file_source
                   Example.w_bare)).
  vm_compute. reflexivity.
Defined.

Lemma fetch_all_or_key_error_witness :
  (exists a b,
      fst (fst (fetch Example.parse [1] [2] Example.file_source Example.w0))
      = Return (a, b)
      /\ Forall2 (fun n x => adds (mkChunkList {[ 1 := ["aa"%string] ]}
                                     {[ 2 := ["bb"%string] ]}) !! n = Some x)
            [1] a)
  /\ (exists n,
        fst (fst (fetch Example.parse [1; 5] [2] Example.file_source
                    Example.w0))
        = Raise (KeyError n)).
Proof.
  split.
  - edestruct (proj2 (proj1 (fetch_all_or_key_error Example.parse [1] [2]
                               Example.file_source Example.w0) _ _ _ _
                        eq_refl eq_refl))
      as (a & b & Hf & Ha & _).
    + intros n Hn. apply list_elem_of_singleton in Hn as ->.
      vm_compute. eauto.
    + intros n Hn. apply list_elem_of_singleton in Hn as ->.
      vm_compute. eauto.
    + exists a, b. rewrite Hf. split; [reflexivity|exact Ha].
  - edestruct (proj1 (proj1 (fetch_all_or_key_error Example.parse [1; 5]
                               [2] Example.file_source Example.w0) _ _ _ _
                        eq_refl eq_refl))
      as (n & Hf & _).
    + exists 5. left. split; [|vm_compute; reflexivity].
      apply list_elem_of_In. simpl. auto.
    + exists n. rewrite Hf. reflexivity.
Defined.

(** On a loaded [FileSource] whose file has since been removed, with the
    gate open, the [refresh] inside [fetch] raises the [OSError] of
    [os.stat]: chunks 1 and 2 are held and requested, yet no record is
    returned; and for the absent number 5 the error is not a [KeyError]. *)
Lemma fetch_not_found_counterexample :
  chunks Example.file_source_loaded = Some Example.parsed
  /\ (is_Some (adds Example.parsed !! 1)
      /\ is_Some (subs Example.parsed !! 2)
      /\ fst (fst (fetch Example.parse [1] [2] Example.file_source_loaded
                     Example.w_gone)) = Raise OSError)
  /\ (adds Example.parsed !! 5 = None
      /\ fst (fst (fetch Example.parse [5] [] Example.file_source_loaded
                     Example.w_gone)) = Raise OSError
      /\ forall n, OSError <> KeyError n).
Proof.
  split_and!; try (vm_compute; reflexivity); try (vm_compute; eauto).
  intros n H. discriminate H.
Qed.

Lemma chunk_index_matches_chunks_witness :
  consistent Example.file_source_loaded.
Proof.
  apply (proj2 (chunk_index_matches_chunks Example.urlparse Example.parse
                  Example.find_prefix Example.file_source_loaded
                  Example.w0)).
  apply (reach_call Example.urlparse Example.parse Example.find_prefix
           CallRefresh Example.file_source Example.w0).
  apply reach_init. discriminate.
Defined.

Lemma FileSource_needs_refresh_mtime_witness :
  exists b w',
    needs_refresh Example.file_source Example.w0
    = (Return b, Example.file_source, w')
    /\ (b = true <-> last_refresh Example.file_source < py_int (101 # 2))
    /\ (py_int (101 # 2) <= last_refresh Example.file_source -> b = false).
Proof.
  apply (FileSource_needs_refresh_mtime Example.file_source Example.w0
           (mkFile (101 # 2) [Byte.x31])); vm_compute; reflexivity.
Defined.

Lemma S3FileSource_needs_refresh_etag_witness :
  fst (fst (needs_refresh Example.s3_source Example.w0)) = Return true.
Proof.
  refine (proj1 (proj2 (S3FileSource_needs_refresh_etag Example.urlparse
                          Example.parse Example.s3_source Example.w0
                          {[ "name"%string := mkS3Key "abc" [Byte.x31] ]}
                          (mkS3Key "abc" [Byte.x31]) _ _ _))
            "s3+file://bucket/name"%string 10 _);
    vm_compute; reflexivity.
Defined.

Lemma reports_fresh_loaded :
  Forall (reports_fresh Example.file_source_loaded)
    [(Example.files, Example.buckets); (Example.files, ∅)].
Proof. repeat constructor; intros w; vm_compute; reflexivity. Defined.

Lemma refresh_fresh_is_idempotent_witness :
  let s' :=
    fst (refresh_each Example.parse
           [(Example.files, Example.buckets); (Example.files, ∅)]
           Example.file_source_loaded Example.w0_loaded) in
  chunks s' = chunks Example.file_source_loaded
  /\ chunk_index s' = chunk_index Example.file_source_loaded
  /\ last_refresh s' = last_refresh Example.file_source_loaded
  /\ s' = set_last_check (last_check s') Example.file_source_loaded
  /\ (0 <= interval Example.file_source_loaded ->
      last_check Example.file_source_loaded <= last_check s').
Proof.
  exact (refresh_fresh_is_idempotent Example.parse _
           Example.file_source_loaded Example.w0_loaded
           (or_intror reports_fresh_loaded)).
Defined.


(** ** The further properties on the example *)

Lemma refresh_true_iff_loaded_witness :
  loads (log Example.w0_loaded) = (loads (log Example.w0) + 1)%nat
  /\ exists c et,
      Example.file_source_loaded
      = installed c et
          (set_last_check (now_of Example.w0) Example.file_source)
          (tick Example.w0)
      /\ chunks Example.file_source_loaded = Some c
      /\ chunk_index Example.file_source_loaded
         = Some (dom (adds c), dom (subs c))
      /\ et = current_etag Example.file_source
      /\ exists f, fs Example.w0 !! path (url Example.file_source) = Some f
                   /\ Example.parse (file_data f) = inr c.
Proof.
  refine (refresh_true_iff_loaded Example.parse Example.file_source
            Example.w0 true Example.file_source_loaded Example.w0_loaded _).
  vm_compute. reflexivity.
Defined.

Lemma FileSource_refresh_by_mtime_witness :
  fst (fst (refresh Example.parse Example.file_source Example.w0))
  = Return true
  /\ chunks (snd (fst (refresh Example.parse Example.file_source
                         Example.w0)))
     = Some (mkChunkList {[ 1 := ["aa"%string] ]} {[ 2 := ["bb"%string] ]}).
Proof.
  destruct (FileSource_refresh_by_mtime Example.parse Example.file_source
              Example.w0 (mkFile (101 # 2) [Byte.x31]))
    as (_ & Hstale & _).
  - reflexivity.
  - vm_compute. intros H; discriminate H.
  - vm_compute. reflexivity.
  - destruct (Hstale eq_refl
                (mkChunkList {[ 1 := ["aa"%string] ]}
                   {[ 2 := ["bb"%string] ]}) eq_refl) as [Hr Hs].
    split; [exact Hr|]. rewrite Hs. reflexivity.
Defined.

Lemma S3FileSource_refresh_by_etag_witness :
  fst (fst (refresh Example.parse Example.s3_source Example.w0))
  = Return true
  /\ current_etag (snd (fst (refresh Example.parse Example.s3_source
                               Example.w0)))
     = Some "abc"%string.
Proof.
  destruct (S3FileSource_refresh_by_etag Example.parse Example.s3_source
              Example.w0 {[ "name"%string := mkS3Key "abc" [Byte.x31] ]}
              (mkS3Key "abc" [Byte.x31]))
    as (_ & Hstale & _).
  - reflexivity.
  - vm_compute. intros H; discriminate H.
  - vm_compute. reflexivity.
  - vm_compute. reflexivity.
  - destruct (Hstale ltac:(discriminate)
                (mkChunkList {[ 1 := ["aa"%string] ]}
                   {[ 2 := ["bb"%string] ]}) eq_refl) as [Hr Hs].
    split; [exact Hr|]. rewrite Hs. reflexivity.
Defined.

Lemma refresh_missing_resource_witness :
  exists w',
    refresh Example.parse Example.file_source Example.w_bare
    = (Raise OSError,
       set_last_check (now_of Example.w_bare) Example.file_source, w')
    /\ loads (log w') = loads (log Example.w_bare).
Proof.
  apply (refresh_missing_resource Example.parse Example.file_source
           Example.w_bare OSError).
  - vm_compute. intros H; discriminate H.
  - left. split_and!; vm_compute; reflexivity.
Defined.

Lemma refresh_never_raises_NoDataError_witness :
  fst (fst (refresh Example.parse Example.file_source Example.w_bare))
  = Raise OSError
  /\ OSError <> NoDataError "Known list, no data found".
Proof.
  split; [vm_compute; reflexivity|].
  refine (refresh_never_raises_NoDataError Example.parse
            Example.file_source Example.w_bare OSError _ _ _ _).
  vm_compute. reflexivity.
Defined.

Lemma requested_present :
  (forall n, n ∈ [1] -> is_Some (adds Example.parsed !! n))
  /\ (forall n, n ∈ [2] -> is_Some (subs Example.parsed !! n)).
Proof.
  split; intros n Hn; apply list_elem_of_singleton in Hn as ->;
    vm_compute; eauto.
Defined.

Lemma fetch_after_failed_refresh_witness :
  exists a b,
    fetch Example.parse [1] [2]
      (snd (fst (refresh Example.parse Example.file_source_loaded
                   Example.w_gone)))
      Example.w_gone_later
    = (Return (a, b),
       snd (fst (refresh Example.parse Example.file_source_loaded
                   Example.w_gone)),
       tick Example.w_gone_later)
    /\ Forall2 (fun n x => adds Example.parsed !! n = Some x) [1] a
    /\ Forall2 (fun n x => subs Example.parsed !! n = Some x) [2] b.
Proof.
  refine (fetch_after_failed_refresh Example.parse [1] [2]
            Example.file_source_loaded Example.w_gone OSError _
            (snd (refresh Example.parse Example.file_source_loaded
                    Example.w_gone))
            Example.w_gone_later Example.parsed _ _
            (proj1 requested_present) (proj2 requested_present) _).
  - vm_compute. reflexivity.
  - vm_compute. reflexivity.
  - vm_compute. reflexivity.
Defined.

Lemma BaseSource_never_holds_data_witness :
  fst (fst (refresh Example.parse Example.base_source Example.w0))
  = Return false
  /\ fst (fst (list_chunks Example.parse Example.base_source Example.w0))
     = Raise TypeError
  /\ fst (fst (fetch Example.parse [1] [] Example.base_source Example.w0))
     = Raise AttributeError.
Proof.
  destruct (BaseSource_never_holds_data Example.urlparse Example.parse
              Example.find_prefix Example.base_source Example.w0)
    as (_ & Hr & _ & Hl & _ & Hf).
  - apply reach_init. discriminate.
  - reflexivity.
  - split_and!; [exact Hr|exact Hl|exact (Hf [1] [])].
Defined.

Lemma list_chunks_then_fetch_witness :
  exists c,
    chunks Example.file_source_loaded = Some c
    /\ exists a b,
        fetch Example.parse [1] [2] Example.file_source_loaded
          Example.w0_loaded
        = (Return (a, b), Example.file_source_loaded,
           tick Example.w0_loaded)
        /\ Forall2 (fun n x => adds c !! n = Some x) [1] a.
Proof.
  destruct (list_chunks_then_fetch Example.parse Example.file_source
              Example.w0 (dom (adds Example.parsed))
              (dom (subs Example.parsed)) Example.file_source_loaded
              (snd (list_chunks Example.parse Example.file_source
                      Example.w0)))
    as (c & Hc & _ & _ & Hfetch).
  - vm_compute. exact I.
  - vm_compute. reflexivity.
  - exists c. split; [exact Hc|].
    destruct (Hfetch [1] [2] Example.w0_loaded) as (a & b & Hf & Ha & _).
    + intros n Hn. apply list_elem_of_singleton in Hn as ->.
      apply elem_of_dom. vm_compute. eauto.
    + intros n Hn. apply list_elem_of_singleton in Hn as ->.
      apply elem_of_dom. vm_compute. eauto.
    + vm_compute. reflexivity.
    + exists a, b. split; [exact Hf|exact Ha].
Defined.

Lemma last_check_never_goes_back_witness :
  last_check Example.file_source
  <= last_check (fst (run_call Example.parse Example.find_prefix
                        CallRefresh Example.file_source Example.w0)).
Proof.
  apply (last_check_never_goes_back Example.parse Example.find_prefix
           CallRefresh Example.file_source Example.w0).
  - exact clock_monotone_w0.
  - vm_compute. intros H; discriminate H.
  - discriminate.
Defined.

Lemma S3FileSource_key_name_one_segment_witness :
  S3FileSource_key_name "/mylist" = Return "mylist"%string.
Proof.
  apply (S3FileSource_key_name_one_segment "mylist");
    [reflexivity|discriminate..].
Defined.

Lemma FileSource_first_fetch_witness :
  exists a b s' w',
    fetch Example.parse [1] [2]
      (Source_init Example.urlparse FileSource "file:///f" 10) Example.w0
    = (Return (a, b), s', w')
    /\ chunks s' = Some Example.parsed
    /\ Forall2 (fun n x => adds Example.parsed !! n = Some x) [1] a
    /\ Forall2 (fun n x => subs Example.parsed !! n = Some x) [2] b
    /\ loads (log w') = S (loads (log Example.w0)).
Proof.
  apply (FileSource_first_fetch Example.urlparse Example.parse "file:///f"
           10 Example.w0 (mkFile (101 # 2) [Byte.x31]) Example.parsed
           [1] [2]).
  - vm_compute. intros H; discriminate H.
  - vm_compute. reflexivity.
  - vm_compute. reflexivity.
  - vm_compute. reflexivity.
  - exact (proj1 requested_present).
  - exact (proj2 requested_present).
Defined.

Lemma S3FileSource_first_fetch_witness :
  exists a b s' w',
    fetch Example.parse [1] [2] Example.s3_source Example.w0
    = (Return (a, b), s', w')
    /\ chunks s' = Some Example.parsed
    /\ current_etag s' = Some "abc"%string
    /\ Forall2 (fun n x => adds Example.parsed !! n = Some x) [1] a
    /\ Forall2 (fun n x => subs Example.parsed !! n = Some x) [2] b
    /\ loads (log w') = S (loads (log Example.w0)).
Proof.
  apply (S3FileSource_first_fetch Example.urlparse Example.parse
           "s3+file://bucket/name" 10 Example.s3_source Example.w0
           {[ "name"%string := mkS3Key "abc" [Byte.x31] ]}
           (mkS3Key "abc" [Byte.x31]) Example.parsed [1] [2]).
  - vm_compute. reflexivity.
  - vm_compute. intros H; discriminate H.
  - vm_compute. reflexivity.
  - vm_compute. reflexivity.
  - vm_compute. reflexivity.
  - exact (proj1 requested_present).
  - exact (proj2 requested_present).
Defined.

Lemma calls_probe_and_load_at_most_once_witness :
  let w' := snd (run_call Example.parse Example.find_prefix
                   (CallFetch [1] [2]) Example.file_source Example.w0) in
  (probes (log Example.w0) <= probes (log w')
   <= S (probes (log Example.w0)))%nat
  /\ (loads (log Example.w0) <= loads (log w')
      <= S (loads (log Example.w0)))%nat
  /\ (loads (log w') - loads (log Example.w0)
      <= probes (log w') - probes (log Example.w0))%nat.
Proof.
  apply (calls_probe_and_load_at_most_once Example.parse
           Example.find_prefix (CallFetch [1] [2]) Example.file_source
           Example.w0).
  discriminate.
Defined.
